(** * Duplication_detector.py: the duplicate-question resolver

    A shallow embedding of [QuestionProcessor] and of the library calls it
    relies on (regular-expression search, substring tests, path splitting,
    data frames), followed by the properties proved about it.

    Conventions of the embedding.
    - A Python [str] is a [string]; a character is a code point below 256
      (the Latin-1 range), so case mapping and the whitespace class are the
      restrictions of Python's to that range.
    - A data-frame cell is [NA] (whatever [pd.isna] accepts), a string or an
      integer.
    - Exceptions are values of [exn]; code that may raise returns [res].
    - Console output and written files are recorded, in order, in a trace of
      [event]s threaded through the [IO] monad. *)

From Stdlib Require Import ZArith Ascii String Bool Lia DecimalString.
From stdpp Require Import base option list sorting strings gmap.

Local Open Scope Z_scope.

(** ** Characters *)

Module Char.

Definition code (c : ascii) : N := N_of_ascii c.

Definition in_range (lo hi : N) (c : ascii) : bool :=
  ((lo <=? code c) && (code c <=? hi))%N.

(** [str.lower] on one character, which is also the case folding applied
    by [re.IGNORECASE]: the letters A-Z and the Latin-1 capitals
    U+00C0..U+00DE (except the multiplication sign U+00D7) move up by 32. *)
Definition lower (c : ascii) : ascii :=
  if in_range 65 90 c || (in_range 192 222 c && negb (code c =? 215)%N)
  then ascii_of_N (code c + 32)
  else c.

(** The class [\s] of a [str] pattern: the characters for which
    [str.isspace] holds. *)
Definition is_space (c : ascii) : bool :=
  in_range 9 13 c || in_range 28 32 c || (code c =? 133)%N || (code c =? 160)%N.

Definition eqb (a b : ascii) : bool := Ascii.eqb a b.

End Char.

(** ** Strings *)

Module Str.

Fixpoint map (f : ascii → ascii) (s : string) : string :=
  match s with
  | EmptyString => EmptyString
  | String c s' => String (f c) (map f s')
  end.

Fixpoint all (p : ascii → bool) (s : string) : bool :=
  match s with
  | EmptyString => true
  | String c s' => p c && all p s'
  end.

(** [s.lower()] *)
Definition lower (s : string) : string := map Char.lower s.

(** [s[n:]] *)
Fixpoint drop (n : nat) (s : string) : string :=
  match n, s with
  | O, _ => s
  | S _, EmptyString => EmptyString
  | S n', String _ s' => drop n' s'
  end.

(** [s[:n]] *)
Fixpoint take (n : nat) (s : string) : string :=
  match n, s with
  | O, _ => EmptyString
  | S _, EmptyString => EmptyString
  | S n', String c s' => String c (take n' s')
  end.

(** [p in s]: [p] occurs in [s] as a contiguous substring. *)
Fixpoint contains (p s : string) : bool :=
  String.prefix p s ||
  match s with
  | EmptyString => false
  | String _ s' => contains p s'
  end.

(** [s.rfind(c)] for a one-character needle: the highest index holding
    [c], or -1. *)
Fixpoint rfind_from (c : ascii) (i : Z) (s : string) (found : Z) : Z :=
  match s with
  | EmptyString => found
  | String d s' => rfind_from c (i + 1) s' (if Char.eqb d c then i else found)
  end.

Definition rfind (c : ascii) (s : string) : Z := rfind_from c 0 s (-1).

(** [s.replace(old, new)]: every occurrence of [old], found from left to
    right without overlap, is replaced.  [skip] counts the characters of
    an occurrence already replaced that are still to be passed over. *)
Fixpoint replace_from (old new : string) (skip : nat) (s : string) : string :=
  match s with
  | EmptyString => EmptyString
  | String c s' =>
      match skip with
      | S k => replace_from old new k s'
      | O =>
          if String.prefix old s
          then new +:+ replace_from old new (String.length old - 1) s'
          else String c (replace_from old new 0 s')
      end
  end.

(** With an empty [old], Python inserts [new] before every character and
    at the end. *)
Fixpoint intersperse (new s : string) : string :=
  match s with
  | EmptyString => new
  | String c s' => new +:+ String c (intersperse new s')
  end.

Definition replace (old new s : string) : string :=
  match old with
  | EmptyString => intersperse new s
  | _ => replace_from old new 0 s
  end.

End Str.

(** ** Regular expressions: the fragment of [re] the program uses *)

Module Re.

(** Members of a bracketed set. *)
Inductive set_item :=
| Chr (c : ascii)            (* a literal member *)
| Range (lo hi : ascii)      (* lo-hi *)
| Space.                     (* \s *)

Definition item_mem (c : ascii) (it : set_item) : bool :=
  match it with
  | Chr d => Char.eqb c d
  | Range lo hi => Char.in_range (Char.code lo) (Char.code hi) c
  | Space => Char.is_space c
  end.

Definition set_mem (set : list set_item) (c : ascii) : bool :=
  existsb (item_mem c) set.

(** The parse tree of a pattern, flattened: a sequence of nodes. *)
Inductive node :=
| Literal (c : ascii)                         (* one character *)
| MaxRepeat (set : list set_item)             (* [set]*, greedy *)
| Subpattern (n : nat) (set : list set_item). (* ([set]{n}), a capturing group *)

(** Matching under [re.IGNORECASE]: the subject character is case-folded
    and compared with the case-folded pattern character; the members of
    the sets used below are their own case-folded form. *)
Definition literal_ic (c ch : ascii) : bool :=
  Char.eqb (Char.lower ch) (Char.lower c).

Definition set_ic (set : list set_item) (ch : ascii) : bool :=
  set_mem set (Char.lower ch).

(** Exactly [n] characters of [set]: the characters taken and the rest. *)
Fixpoint take_set (n : nat) (set : list set_item) (s : string)
  : option (string * string) :=
  match n with
  | O => Some (EmptyString, s)
  | S n' =>
      match s with
      | EmptyString => None
      | String ch s' =>
          if set_ic set ch
          then match take_set n' set s' with
               | Some (g, rest) => Some (String ch g, rest)
               | None => None
               end
          else None
      end
  end.

(** [re.match] at the start of [s], by backtracking: the groups captured,
    in order, when the node sequence matches a prefix of [s].  A greedy
    repetition first tries to consume one more character and falls back
    to the rest of the pattern when that fails. *)
Fixpoint match_here (ns : list node) (s : string) : option (list string) :=
  match ns with
  | [] => Some []
  | Literal c :: ns' =>
      match s with
      | EmptyString => None
      | String ch s' => if literal_ic c ch then match_here ns' s' else None
      end
  | MaxRepeat set :: ns' =>
      (fix star (s : string) : option (list string) :=
         match s with
         | EmptyString => match_here ns' s
         | String ch s' =>
             if set_ic set ch
             then match star s' with
                  | Some gs => Some gs
                  | None => match_here ns' s
                  end
             else match_here ns' s
         end) s
  | Subpattern n set :: ns' =>
      match take_set n set s with
      | Some (g, rest) =>
          match match_here ns' rest with
          | Some gs => Some (g :: gs)
          | None => None
          end
      | None => None
      end
  end.

(** [re.search]: the match at the leftmost position that has one. *)
Fixpoint search (ns : list node) (s : string) : option (list string) :=
  match match_here ns s with
  | Some gs => Some gs
  | None =>
      match s with
      | EmptyString => None
      | String _ s' => search ns s'
      end
  end.

Fixpoint literals (s : string) : list node :=
  match s with
  | EmptyString => []
  | String c s' => Literal c :: literals s'
  end.

End Re.

(** ** Values, exceptions *)

(** A data-frame cell as the program sees one. *)
Inductive cell :=
| NA                  (* None / NaN: [pd.isna] is true *)
| Str (s : string)
| Int (z : Z).

Global Instance cell_eq_dec : EqDecision cell.
Proof. solve_decision. Defined.

(** [pd.isna(v)] *)
Definition isna (v : cell) : bool :=
  match v with NA => true | _ => false end.

(** [str(v)] *)
Definition py_str (v : cell) : string :=
  match v with
  | NA => "nan"
  | Str s => s
  | Int z => NilZero.string_of_int (Z.to_int z)
  end.

Inductive exn :=
| ValueError (msg : string)
| KeyError (keys : list string)
| TypeError (msg : string)
| ReadError (msg : string).   (* whatever the file readers raise *)

Inductive res (A : Type) :=
| Ok (a : A)
| Raise (e : exn).
Global Arguments Ok {A} a.
Global Arguments Raise {A} e.

Global Instance res_ret : MRet res := λ A a, Ok a.
Global Instance res_bind : MBind res := λ A B k m,
  match m with
  | Ok a => k a
  | Raise e => Raise e
  end.

(** ** [QuestionProcessor]: the pure methods *)

(** [self.priority_labels] *)
Definition priority_labels : gmap Z string :=
  <[1 := "JEE Advanced"]> (<[2 := "JEE Mains"]> (<[3 := "NCERT"]>
    (<[4 := "Plain/Other"]> ∅))).

(** The pattern [Question ID[:\s]*([a-f0-9]{24})], searched with
    [re.IGNORECASE]. *)
Definition sep_set : list Re.set_item := [Re.Chr ":"; Re.Space].
Definition hex_set : list Re.set_item := [Re.Range "a" "f"; Re.Range "0" "9"].

Definition question_id_pattern : list Re.node :=
  Re.literals "Question ID" ++ [Re.MaxRepeat sep_set; Re.Subpattern 24 hex_set].

(** [m.group(1)] of a successful match. *)
Definition group1 (gs : list string) : string := default "" (gs !! 0%nat).

Definition extract_question_id (question_text : cell) : option string :=
  if isna question_text then None
  else
    let question_str := py_str question_text in
    match Re.search question_id_pattern question_str with
    | Some gs => Some (group1 gs)
    | None => None
    end.

Definition tier1_keywords : list string := ["jee advanced"; "jee adv"; "advanced"].
Definition tier2_keywords : list string := ["jee main"; "jee mains"; "mains"].

Definition get_priority (question_text : cell) : Z :=
  if isna question_text then 4
  else
    let text := Str.lower (py_str question_text) in
    if existsb (λ p, Str.contains p text) tier1_keywords then 1
    else if existsb (λ p, Str.contains p text) tier2_keywords then 2
    else if Str.contains "ncert" text then 3
    else 4.

(** ** Data frames: the fragment of pandas the program uses

    A frame is its column labels and its rows, each row holding one cell
    per column.  The row index is not modelled: no operation below reads
    it, and every file is written with [index=False]. *)

Record DataFrame := mkDataFrame {
  columns : list string;
  rows : list (list cell)
}.

(** A Python dict with string keys, in insertion order. *)
Definition dict := list (string * cell).

Module Frame.

Fixpoint index_of (name : string) (cols : list string) : option nat :=
  match cols with
  | [] => None
  | c :: cols' =>
      if decide (c = name) then Some O else S <$> index_of name cols'
  end.

(** The cell of [row] under the column [name]. *)
Definition row_get (cols : list string) (row : list cell) (name : string)
  : option cell :=
  i ← index_of name cols; row !! i.

(** [row[name]] on a row produced by [iterrows]. *)
Definition row_item (cols : list string) (row : list cell) (name : string)
  : res cell :=
  match row_get cols row name with
  | Some v => Ok v
  | None => Raise (KeyError [name])
  end.

Definition cell_of (cols : list string) (row : list cell) (name : string) : cell :=
  default NA (row_get cols row name).

(** [len(df)] *)
Definition len (df : DataFrame) : nat := length (rows df).

(** [df.empty]: some axis has length zero. *)
Definition empty (df : DataFrame) : bool :=
  match columns df, rows df with
  | [], _ | _, [] => true
  | _, _ => false
  end.

Definition missing (names cols : list string) : list string :=
  filter (λ n, n ∉ cols) names.

(** The elements of [l] whose key was not seen before, in order. *)
Fixpoint keep_first {A K} `{EqDecision K} (key : A → K) (seen : list K)
    (l : list A) : list A :=
  match l with
  | [] => []
  | x :: l' =>
      if decide (key x ∈ seen) then keep_first key seen l'
      else x :: keep_first key (key x :: seen) l'
  end.

(** [d.get(k)] on a dict held as its list of items. *)
Fixpoint dict_get {V} (d : list (string * V)) (k : string) : option V :=
  match d with
  | [] => None
  | (k', v) :: d' => if decide (k' = k) then Some v else dict_get d' k
  end.

(** [pd.DataFrame(records)] for a list of dicts: the columns are the keys
    in order of first appearance, a key a record lacks reads as NA. *)
Definition of_dicts (records : list dict) : DataFrame :=
  let cols := keep_first id [] (concat (map (map fst) records)) in
  {| columns := cols;
     rows := map (λ d, map (λ c, default NA (dict_get d c)) cols) records |}.

(** [df.drop_duplicates(subset=subset)], with the default [keep='first'].
    An empty frame is returned as it is, before the subset is looked at;
    otherwise a label of [subset] that is no column raises [KeyError]. *)
Definition drop_duplicates (subset : list string) (df : DataFrame)
  : res DataFrame :=
  if empty df then Ok df
  else
    match missing subset (columns df) with
    | [] =>
        Ok {| columns := columns df;
              rows := keep_first (λ r, map (cell_of (columns df) r) subset) []
                        (rows df) |}
    | ks => Raise (KeyError ks)
    end.

(** [df[names]] for a list of labels. *)
Definition select (names : list string) (df : DataFrame) : res DataFrame :=
  match missing names (columns df) with
  | [] =>
      Ok {| columns := names;
            rows := map (λ r, map (cell_of (columns df) r) names) (rows df) |}
  | ks => Raise (KeyError ks)
  end.

(** [df[name]] for one label: the column's values. *)
Definition column (name : string) (df : DataFrame) : res (list cell) :=
  match index_of name (columns df) with
  | Some _ => Ok (map (λ r, cell_of (columns df) r name) (rows df))
  | None => Raise (KeyError [name])
  end.

(** [df.rename(columns=mapping)]: labels that are keys of [mapping] are
    replaced, the others kept. *)
Definition rename (mapping : list (string * string)) (df : DataFrame)
  : DataFrame :=
  {| columns :=
       map (λ c, default c (dict_get mapping c)) (columns df);
     rows := rows df |}.

(** [df[name] = values]: an existing column is overwritten in place, a
    new one is appended on the right. *)
Definition assign (name : string) (values : list cell) (df : DataFrame)
  : DataFrame :=
  match index_of name (columns df) with
  | Some i =>
      {| columns := columns df;
         rows := zip_with (λ r v, <[i := v]> r) (rows df) values |}
  | None =>
      {| columns := columns df ++ [name];
         rows := zip_with (λ r v, r ++ [v]) (rows df) values |}
  end.

(** [df[name] = v] for a scalar [v]. *)
Definition assign_scalar (name : string) (v : cell) (df : DataFrame)
  : DataFrame :=
  assign name (replicate (len df) v) df.

(** [series.map(d)] for a dict with integer keys: a value that is no key
    of [d] becomes NA. *)
Definition map_value (d : gmap Z string) (v : cell) : cell :=
  match v with
  | Int z => match d !! z with Some l => Str l | None => NA end
  | _ => NA
  end.

Definition map_dict (d : gmap Z string) (values : list cell) : list cell :=
  map (map_value d) values.

(** [series.value_counts()] up to the order of its entries: each distinct
    non-NA value with its number of occurrences. *)
Definition value_counts (values : list cell) : list (cell * nat) :=
  let present := filter (λ v, v ≠ NA) values in
  map (λ v, (v, length (filter (λ w, w = v) present)))
      (keep_first id [] present).

Definition is_int (v : cell) : bool := match v with Int _ => true | _ => false end.
Definition is_str (v : cell) : bool := match v with Str _ => true | _ => false end.

(** [<=] between index labels of one kind. *)
Definition label_le (a b : cell) : bool :=
  match a, b with
  | Int x, Int y => (x <=? y)%Z
  | Str x, Str y => String.leb x y
  | _, _ => true
  end.

Fixpoint insert_sorted {A} (x : cell * A) (l : list (cell * A)) : list (cell * A) :=
  match l with
  | [] => [x]
  | y :: l' => if label_le x.1 y.1 then x :: l else y :: insert_sorted x l'
  end.

(** [series.sort_index()]: ascending by label; labels of different kinds
    cannot be ordered. *)
Definition sort_index {A} (s : list (cell * A)) : res (list (cell * A)) :=
  if forallb (λ kv, is_int kv.1) s || forallb (λ kv, is_str kv.1) s
  then Ok (foldr insert_sorted [] s)
  else Raise (TypeError "'<' not supported between instances of 'str' and 'int'").

End Frame.

(** ** Paths: [os.path.splitext] (POSIX flavour) *)

Module Path.

(** The loop of [genericpath._splitext] that passes over leading dots:
    [n] iterations are left, [filenameIndex] is the position looked at. *)
Fixpoint skip_dots (n : nat) (p : string) (filenameIndex dotIndex : Z)
  : string * string :=
  match n with
  | O => (p, EmptyString)
  | S n' =>
      match String.get (Z.to_nat filenameIndex) p with
      | Some c =>
          if Char.eqb c "."
          then skip_dots n' p (filenameIndex + 1) dotIndex
          else (Str.take (Z.to_nat dotIndex) p, Str.drop (Z.to_nat dotIndex) p)
      | None => (Str.take (Z.to_nat dotIndex) p, Str.drop (Z.to_nat dotIndex) p)
      end
  end.

Definition splitext (p : string) : string * string :=
  let sepIndex := Str.rfind "/" p in
  let dotIndex := Str.rfind "." p in
  if sepIndex <? dotIndex
  then skip_dots (Z.to_nat (dotIndex - (sepIndex + 1))) p (sepIndex + 1) dotIndex
  else (p, EmptyString).

End Path.

(** ** Effects: console output and written files *)

(** One constructor per [print] of the program, carrying the values that
    are formatted into the line. *)
Inductive message :=
| Converted (file_path csv_path : string)
| Loaded (pairs : nat)
| SelectionCreated (selections : nat)
| MappingCreated
| ValidationTitle
| ValidationRule
| DistributionTitle
| DistributionLine (label : string) (count : nat)
| ReportCreated
| Completed.

Inductive event :=
| Stdout (m : message)
| ToCsv (path : string) (df : DataFrame).   (* [df.to_csv(path, index=False)] *)

(** A computation that may raise and that appends to the trace; what was
    emitted before an exception stays in the trace. *)
Definition IO (A : Type) : Type := list event → res A * list event.

Global Instance IO_ret : MRet IO := λ A a tr, (Ok a, tr).
Global Instance IO_bind : MBind IO := λ A B k m tr,
  match m tr with
  | (Ok a, tr') => k a tr'
  | (Raise e, tr') => (Raise e, tr')
  end.

Definition emit (e : event) : IO unit := λ tr, (Ok tt, tr ++ [e]).
Definition lift {A} (r : res A) : IO A := λ tr, (r, tr).
Definition print (m : message) : IO unit := emit (Stdout m).
Definition to_csv (df : DataFrame) (path : string) : IO unit := emit (ToCsv path df).

(** The events of a trace that write a file. *)
Definition written (tr : list event) : list (string * DataFrame) :=
  omap (λ e, match e with ToCsv p df => Some (p, df) | Stdout _ => None end) tr.

(** ** [QuestionProcessor]: the methods with effects *)

(** [q1_id and q2_id] tests the truth value of an optional string. *)
Definition truthy (o : option string) : bool :=
  match o with
  | Some s => negb (String.eqb s "")
  | None => false
  end.

Definition id_cell (o : option string) : cell :=
  match o with
  | Some s => Str s
  | None => NA
  end.

(** The dict appended to [results] for a resolved pair. *)
Definition selection (sel rej : option string) (sp rp : Z) (chosen : string)
  : dict :=
  [ ("selected_question_id", id_cell sel);
    ("rejected_question_id", id_cell rej);
    ("selected_priority", Int sp);
    ("rejected_priority", Int rp);
    ("chosen", Str chosen) ].

(** The decision taken for the two fields of one pair: the body of the
    loop once both cells are read. *)
Definition resolve_pair (question_1 question_2 : cell) : option dict :=
  let q1_id := extract_question_id question_1 in
  let q2_id := extract_question_id question_2 in
  let q1_p := get_priority question_1 in
  let q2_p := get_priority question_2 in
  if truthy q1_id && truthy q2_id then
    if q1_p <=? q2_p
    then Some (selection q1_id q2_id q1_p q2_p "question_1")
    else Some (selection q2_id q1_id q2_p q1_p "question_2")
  else None.

(** One iteration of [for _, row in df.iterrows()], on the list
    accumulated so far. *)
Definition process_row (cols : list string) (results : list dict)
    (row : list cell) : res (list dict) :=
  question_1 ← Frame.row_item cols row "question_1";
  question_2 ← Frame.row_item cols row "question_2";
  match resolve_pair question_1 question_2 with
  | Some d => Ok (results ++ [d])
  | None => Ok results
  end.

(** The whole loop, from [results = []]. *)
Definition collect_results (df : DataFrame) : res (list dict) :=
  foldl (λ acc row, results ← acc; process_row (columns df) results row)
        (Ok []) (rows df).

Section Pipeline.

(** What the environment provides: the two file readers and the date
    [datetime.now().strftime("%Y-%m-%d")]. *)
Variable read_excel : string → res DataFrame.
Variable read_csv : string → res DataFrame.
Variable today : string.

Definition convert_xlsx_to_csv (file_path : string) : IO DataFrame :=
  let ext := Str.lower (Path.splitext file_path).2 in
  if decide (ext = ".xlsx") then
    df ← lift (read_excel file_path);
    let csv_path := Str.replace ".xlsx" ".csv" file_path in
    to_csv df csv_path;;
    print (Converted file_path csv_path);;
    mret df
  else if decide (ext = ".csv") then
    lift (read_csv file_path)
  else
    lift (Raise (ValueError "Unsupported file format!")).

Definition process_duplicates (file_path : string) : IO DataFrame :=
  df ← convert_xlsx_to_csv file_path;
  print (Loaded (Frame.len df));;
  results ← lift (collect_results df);
  results_df ← lift (Frame.drop_duplicates ["selected_question_id"]
                       (Frame.of_dicts results));
  to_csv results_df "final_selection_questions.csv";;
  print (SelectionCreated (Frame.len results_df));;
  mret results_df.

Definition create_priority_mapping (results_df : DataFrame) : IO DataFrame :=
  mapping ← lift (Frame.select ["selected_question_id"; "selected_priority"]
                    results_df);
  let mapping :=
    Frame.rename [("selected_question_id", "question_id");
                  ("selected_priority", "priority")] mapping in
  priority ← lift (Frame.column "priority" mapping);
  let mapping :=
    Frame.assign "priority_label" (Frame.map_dict priority_labels priority)
                 mapping in
  to_csv mapping "question_id_priority_mapping.csv";;
  print MappingCreated;;
  mret mapping.

(** [for p, c in dist.items(): print(... self.priority_labels[p] ...)] *)
Fixpoint print_distribution (dist : list (cell * nat)) : IO unit :=
  match dist with
  | [] => mret tt
  | (p, c) :: dist' =>
      label ← lift (match p with
                    | Int z =>
                        match priority_labels !! z with
                        | Some l => Ok l
                        | None => Raise (KeyError [py_str p])
                        end
                    | _ => Raise (KeyError [py_str p])
                    end);
      print (DistributionLine label c);;
      print_distribution dist'
  end.

Definition validate_and_report (results_df : DataFrame) : IO DataFrame :=
  print ValidationTitle;;
  print ValidationRule;;
  print DistributionTitle;;
  selected ← lift (Frame.column "selected_priority" results_df);
  dist ← lift (Frame.sort_index (Frame.value_counts selected));
  print_distribution dist;;
  let consolidated := results_df in
  selected ← lift (Frame.column "selected_priority" consolidated);
  let consolidated :=
    Frame.assign "priority_label" (Frame.map_dict priority_labels selected)
                 consolidated in
  let consolidated :=
    Frame.assign_scalar "processing_date" (Str today) consolidated in
  to_csv consolidated "final_consolidated_question_report.csv";;
  print ReportCreated;;
  mret consolidated.

Definition main (file_path : string) : IO unit :=
  results ← process_duplicates file_path;
  create_priority_mapping results;;
  validate_and_report results;;
  print Completed.

End Pipeline.

(** The default argument of [main]. *)
Definition default_file_path : string := "Duplicate_Detection_Report.xlsx".

(** * Vocabulary of the statements *)

(** The characters accepted between the label and the identifier, and the
    characters accepted in the identifier. *)
Definition is_sep (c : ascii) : bool := Char.eqb c ":" || Char.is_space c.

Definition is_lower_hex (c : ascii) : bool :=
  Char.in_range 48 57 c || Char.in_range 97 102 c.

Definition is_hex (c : ascii) : bool :=
  is_lower_hex c || Char.in_range 65 70 c.

(** [s] begins with an occurrence of the pattern whose group is [g]: the
    label in any case, separators, then the 24 characters of [g]. *)
Definition id_at (s g : string) : Prop :=
  ∃ label seps rest,
    s = label +:+ seps +:+ g +:+ rest ∧
    Str.lower label = "question id" ∧
    Str.all is_sep seps = true ∧
    String.length g = 24%nat ∧
    Str.all is_hex g = true.

(** An occurrence of the pattern starts in [text] right after [pre]. *)
Definition occurs (text pre g : string) : Prop :=
  ∃ suf, text = pre +:+ suf ∧ id_at suf g.

(** No occurrence of the pattern starts in [text] before the end of [pre]. *)
Definition leftmost (text pre : string) : Prop :=
  ∀ pre' g', occurs text pre' g' → (String.length pre ≤ String.length pre')%nat.

(** [kw] occurs in [text] up to the case of the letters. *)
Definition mentions (kw text : string) : Prop :=
  ∃ a occ b, text = a +:+ occ +:+ b ∧ Str.lower occ = kw.

(** The selection a row of the input contributes, if any, when both of its
    question cells can be read. *)
Definition row_selection (cols : list string) (row : list cell) : option dict :=
  question_1 ← Frame.row_get cols row "question_1";
  question_2 ← Frame.row_get cols row "question_2";
  resolve_pair question_1 question_2.

(** The identifier a selection carries. *)
Definition selected_id (d : dict) : cell :=
  default NA (Frame.dict_get d "selected_question_id").

(** The values of a dict, in the order of its keys. *)
Definition values (d : dict) : list cell := map snd d.

(** The cell of a table row under [selected_question_id]. *)
Definition selected_cell (df : DataFrame) (row : list cell) : cell :=
  Frame.cell_of (columns df) row "selected_question_id".

(** The labels of a selection table. *)
Definition selection_columns : list string :=
  ["selected_question_id"; "rejected_question_id"; "selected_priority";
   "rejected_priority"; "chosen"].

(** The shape of every dict the loop appends. *)
Definition is_selection (d : dict) : Prop :=
  ∃ sel rej sp rp chosen, d = selection sel rej sp rp chosen.

(** The frame without columns and rows, [pd.DataFrame([])]. *)
Definition empty_frame : DataFrame := {| columns := []; rows := [] |}.

(** The fixed labels, tier by tier. *)
Definition label_table : list (Z * string) :=
  [(1, "JEE Advanced"); (2, "JEE Mains"); (3, "NCERT"); (4, "Plain/Other")].

(** ** A sample batch

    Five pairs: the first two resolve to different identifiers, the third
    lacks an identifier on one side, the fourth is empty, and the fifth
    selects the identifier the second already selected, with another
    rejected identifier and other tiers. *)
Definition sample_pairs : DataFrame :=
  {| columns := ["question_1"; "question_2"; "similarity"];
     rows :=
       [ [Str "Question ID: aaaaaaaaaaaaaaaaaaaaaaaa JEE Advanced 2019";
          Str "Question ID: bbbbbbbbbbbbbbbbbbbbbbbb NCERT"; Int 97];
         [Str "Question ID: cccccccccccccccccccccccc mains";
          Str "Question ID: dddddddddddddddddddddddd mains"; Int 91];
         [Str "State Ohm's law.";
          Str "Question ID: dddddddddddddddddddddddd mains"; NA];
         [NA; NA; NA];
         [Str "Question ID: eeeeeeeeeeeeeeeeeeeeeeee";
          Str "Question ID: cccccccccccccccccccccccc mains"; Int 88] ] |}.

(** A batch in which no pair has an identifier on both sides. *)
Definition sample_unresolved : DataFrame :=
  {| columns := ["question_1"; "question_2"];
     rows := [ [Str "State Ohm's law."; Str "Question ID: dddddddddddddddddddddddd"];
               [NA; Str "ncert"] ] |}.

(** A file system holding the two batches as CSV files. *)
Definition sample_reader (path : string) : res DataFrame :=
  if decide (path = "pairs.csv") then Ok sample_pairs
  else if decide (path = "unresolved.csv") then Ok sample_unresolved
  else Raise (ReadError "No such file or directory").

Definition sample_selection : DataFrame :=
  {| columns := selection_columns;
     rows :=
       [ [Str "aaaaaaaaaaaaaaaaaaaaaaaa"; Str "bbbbbbbbbbbbbbbbbbbbbbbb";
          Int 1; Int 3; Str "question_1"];
         [Str "cccccccccccccccccccccccc"; Str "dddddddddddddddddddddddd";
          Int 2; Int 2; Str "question_1"] ] |}.

(** A well-formed identifier: 24 hexadecimal characters. *)
Definition hex_id (g : string) : Prop :=
  String.length g = 24%nat ∧ Str.all is_hex g = true.

(** Every row of the frame has one cell per column. *)
Definition well_formed (df : DataFrame) : Prop :=
  Forall (λ r, length r = length (columns df)) (rows df).

(** The integer an index label holds. *)
Definition tier_of (v : cell) : Z :=
  match v with Int z => z | _ => 0 end.

(** The label printed for a tier of the distribution. *)
Definition tier_label (v : cell) : string :=
  default "" (priority_labels !! tier_of v).

(** The lines printed for a distribution. *)
Definition distribution_lines (dist : list (cell * nat)) : list event :=
  (λ pc, Stdout (DistributionLine (tier_label pc.1) pc.2)) <$> dist.

(** The number of occurrences of [v] in [l]. *)
Definition occurrences (v : cell) (l : list cell) : nat :=
  length (filter (λ w, w = v) l).

(** A cell that holds a tier between 1 and 4. *)
Definition is_tier (v : cell) : Prop := ∃ t, v = Int t ∧ 1 ≤ t ≤ 4.

(** The characters of the decimal rendering of an integer. *)
Definition is_numeric_char (c : ascii) : bool :=
  Char.in_range 48 57 c || Char.eqb c "-".

(** * Properties *)

(** ** Strings *)

Lemma app_cons c s t : String c s +:+ t = String c (s +:+ t).
Proof. reflexivity. Qed.

Lemma app_empty_l s : "" +:+ s = s.
Proof. reflexivity. Qed.


Lemma app_assoc_s s t u : (s +:+ t) +:+ u = s +:+ t +:+ u.
Proof. induction s as [|c s IH]; [done|]. by rewrite !app_cons, IH. Qed.

Lemma length_app_s s t :
  String.length (s +:+ t) = (String.length s + String.length t)%nat.
Proof. induction s as [|c s IH]; [done|]. rewrite app_cons. simpl. by rewrite IH. Qed.

Lemma app_inv_head_s s t u : s +:+ t = s +:+ u → t = u.
Proof.
  induction s as [|c s IH]; [done|]. rewrite !app_cons. intros [= H]. auto.
Qed.

Lemma app_eq_length s1 t1 s2 t2 :
  s1 +:+ t1 = s2 +:+ t2 → String.length s1 = String.length s2 →
  s1 = s2 ∧ t1 = t2.
Proof.
  revert s2. induction s1 as [|c s1 IH]; intros [|d s2]; try done.
  rewrite !app_cons. intros [= -> H] [= Hl].
  destruct (IH _ H Hl) as [-> ->]. done.
Qed.

(** Two ways of cutting one string: the shorter first part is a prefix of
    the longer one. *)
Lemma app_eq_split s1 t1 s2 t2 :
  s1 +:+ t1 = s2 +:+ t2 → (String.length s1 ≤ String.length s2)%nat →
  ∃ m, s2 = s1 +:+ m ∧ t1 = m +:+ t2.
Proof.
  revert s2. induction s1 as [|c s1 IH]; intros s2 H Hl.
  - exists s2. done.
  - destruct s2 as [|d s2]; [simpl in Hl; lia|].
    rewrite !app_cons in H. injection H as -> H.
    destruct (IH s2 H) as (m & -> & ->); [simpl in Hl; lia|].
    exists m. done.
Qed.

Lemma map_app_s f s t : Str.map f (s +:+ t) = Str.map f s +:+ Str.map f t.
Proof. induction s as [|c s IH]; [done|]. rewrite app_cons. simpl. by rewrite IH. Qed.

Lemma map_length_s f s : String.length (Str.map f s) = String.length s.
Proof. induction s as [|c s IH]; [done|]. simpl. by rewrite IH. Qed.

Lemma map_app_inv f s a b :
  Str.map f s = a +:+ b →
  ∃ s1 s2, s = s1 +:+ s2 ∧ Str.map f s1 = a ∧ Str.map f s2 = b.
Proof.
  revert s. induction a as [|c a IH]; intros s H.
  - exists "", s. done.
  - destruct s as [|d s]; [done|]. rewrite app_cons in H. simpl in H.
    injection H as Hc H. destruct (IH s H) as (s1 & s2 & -> & <- & <-).
    exists (String d s1), s2. simpl. by rewrite Hc.
Qed.

Lemma all_app_s p s t : Str.all p (s +:+ t) = Str.all p s && Str.all p t.
Proof.
  induction s as [|c s IH]; [done|]. rewrite app_cons. simpl.
  by rewrite IH, andb_assoc.
Qed.

Lemma take_drop_s n s : Str.take n s +:+ Str.drop n s = s.
Proof.
  revert s. induction n as [|n IH]; intros [|c s]; try done.
  simpl. by rewrite app_cons, IH.
Qed.

Lemma take_length_s n s :
  (n ≤ String.length s)%nat → String.length (Str.take n s) = n.
Proof.
  revert s. induction n as [|n IH]; intros [|c s] H; simpl in *; try done; try lia.
  rewrite IH; lia.
Qed.

Lemma take_app_s s t : Str.take (String.length s) (s +:+ t) = s.
Proof. induction s as [|c s IH]; [by destruct t|]. rewrite app_cons. simpl. by rewrite IH. Qed.

Lemma drop_app_s s t : Str.drop (String.length s) (s +:+ t) = t.
Proof. induction s as [|c s IH]; [done|]. rewrite app_cons. simpl. by rewrite IH. Qed.

Lemma all_take_s p n s : Str.all p s = true → Str.all p (Str.take n s) = true.
Proof.
  revert s. induction n as [|n IH]; intros [|c s]; simpl; try done.
  intros [-> H]%andb_true_iff. simpl. auto.
Qed.

Lemma prefix_spec p s : String.prefix p s = true ↔ ∃ t, s = p +:+ t.
Proof.
  revert s. induction p as [|c p IH]; intros s.
  - split; [intros _; exists s; done|]. by destruct s.
  - destruct s as [|d s]; simpl.
    + split; [done|]. by intros [t H].
    + destruct (ascii_dec c d) as [->|Hne].
      * rewrite IH. split; intros [t H]; exists t.
        -- by rewrite app_cons, H.
        -- rewrite app_cons in H. by injection H.
      * split; [done|]. intros [t H]. rewrite app_cons in H. congruence.
Qed.

(** [p in s] holds exactly when [s] can be cut around an occurrence of [p]. *)
Lemma contains_spec p s :
  Str.contains p s = true ↔ ∃ a b, s = a +:+ p +:+ b.
Proof.
  induction s as [|c s IH].
  - change (Str.contains p "") with (String.prefix p "" || false).
    rewrite orb_false_r, prefix_spec. split.
    + intros [t H]. exists "", t. done.
    + intros (a & b & H). destruct a; [by exists b|done].
  - change (Str.contains p (String c s))
      with (String.prefix p (String c s) || Str.contains p s).
    rewrite orb_true_iff, prefix_spec, IH. split.
    + intros [[t H]|(a & b & H)].
      * exists "", t. done.
      * exists (String c a), b. by rewrite app_cons, H.
    + intros (a & b & H). destruct a as [|d a].
      * left. by exists b.
      * right. rewrite app_cons in H. injection H as _ H. by exists a, b.
Qed.

(** ** The regular-expression matcher *)

Ltac each_char c :=
  destruct c as [[] [] [] [] [] [] [] []]; vm_compute; try reflexivity; try discriminate.

Lemma sep_set_ic c : Re.set_ic sep_set c = is_sep c.
Proof. each_char c. Qed.

Lemma hex_set_ic c : Re.set_ic hex_set c = is_hex c.
Proof. each_char c. Qed.

Lemma sep_not_hex c : is_hex c = true → is_sep c = false.
Proof. each_char c. Qed.

Lemma all_ext_s p q s : (∀ c, p c = q c) → Str.all p s = Str.all q s.
Proof. intros H. induction s as [|c s IH]; [done|]. simpl. by rewrite H, IH. Qed.

Lemma match_star_nil set ns :
  Re.match_here (Re.MaxRepeat set :: ns) "" = Re.match_here ns "".
Proof. reflexivity. Qed.

Lemma match_star_cons set ns ch s :
  Re.match_here (Re.MaxRepeat set :: ns) (String ch s) =
  if Re.set_ic set ch
  then match Re.match_here (Re.MaxRepeat set :: ns) s with
       | Some gs => Some gs
       | None => Re.match_here ns (String ch s)
       end
  else Re.match_here ns (String ch s).
Proof. reflexivity. Qed.

(** What a greedy repetition matched is a run of set characters followed
    by a match of the rest of the pattern. *)
Lemma match_star_sound set ns s gs :
  Re.match_here (Re.MaxRepeat set :: ns) s = Some gs →
  ∃ a b, s = a +:+ b ∧ Str.all (Re.set_ic set) a = true ∧
         Re.match_here ns b = Some gs.
Proof.
  induction s as [|ch s IH].
  - rewrite match_star_nil. intros H. exists "", "". done.
  - rewrite match_star_cons. destruct (Re.set_ic set ch) eqn:Hch.
    + destruct (Re.match_here (Re.MaxRepeat set :: ns) s) as [gs'|] eqn:Hs.
      * intros [= ->]. destruct (IH eq_refl) as (a & b & -> & Ha & Hb).
        exists (String ch a), b. simpl. by rewrite Hch, Ha.
      * intros H. exists "", (String ch s). done.
    + intros H. exists "", (String ch s). done.
Qed.

(** Backtracking finds the match when what follows the run cannot start
    with a set character. *)
Lemma match_star_complete set ns a b gs :
  Str.all (Re.set_ic set) a = true →
  Re.match_here ns b = Some gs →
  (∀ ch b', b = String ch b' → Re.set_ic set ch = false) →
  Re.match_here (Re.MaxRepeat set :: ns) (a +:+ b) = Some gs.
Proof.
  intros Ha Hb Hfirst. induction a as [|ch a IH].
  - rewrite app_empty_l. destruct b as [|ch b'].
    + by rewrite match_star_nil.
    + by rewrite match_star_cons, (Hfirst ch b').
  - simpl in Ha. apply andb_true_iff in Ha as [Hch Ha].
    rewrite app_cons, match_star_cons, Hch, (IH Ha). done.
Qed.

Lemma take_set_spec n set s g rest :
  Re.take_set n set s = Some (g, rest) ↔
  s = g +:+ rest ∧ String.length g = n ∧ Str.all (Re.set_ic set) g = true.
Proof.
  revert s g rest. induction n as [|n IH]; intros s g rest; simpl.
  - split.
    + intros [= <- <-]. done.
    + intros (-> & Hl & _). destruct g; [done|discriminate].
  - destruct s as [|ch s].
    + split; [done|]. intros (H & Hl & _). destruct g; discriminate.
    + destruct (Re.set_ic set ch) eqn:Hch.
      * destruct (Re.take_set n set s) as [[g' rest']|] eqn:Ht.
        -- apply IH in Ht as (-> & <- & Hall). split.
           ++ intros [= <- <-]. simpl. by rewrite Hch, Hall.
           ++ intros (H & Hl & Hg). destruct g as [|c g]; [discriminate|].
              rewrite app_cons in H. injection H as <- H. injection Hl as Hl.
              destruct (app_eq_length _ _ _ _ H) as [-> ->]; done.
        -- split; [done|]. intros (H & Hl & Hg).
           destruct g as [|c g]; [discriminate|].
           rewrite app_cons in H. injection H as <- ->. injection Hl as Hl.
           simpl in Hg. apply andb_true_iff in Hg as [_ Hg].
           assert (Re.take_set n set (g +:+ rest) = Some (g, rest)) as Hx
             by (apply IH; done).
           congruence.
      * split; [done|]. intros (H & Hl & Hg).
        destruct g as [|c g]; [discriminate|].
        rewrite app_cons in H. injection H as <- _. simpl in Hg.
        apply andb_true_iff in Hg as [Hg _]. congruence.
Qed.

Lemma lower_eq_length a b : Str.lower a = Str.lower b → String.length a = String.length b.
Proof.
  intros H. rewrite <- (map_length_s Char.lower a), <- (map_length_s Char.lower b).
  unfold Str.lower in H. by rewrite H.
Qed.

Lemma match_literals lit ns s gs :
  Re.match_here (Re.literals lit ++ ns) s = Some gs ↔
  ∃ label rest, s = label +:+ rest ∧ Str.lower label = Str.lower lit ∧
                Re.match_here ns rest = Some gs.
Proof.
  revert s. induction lit as [|c lit IH]; intros s.
  - simpl. split.
    + intros H. exists "", s. done.
    + intros (label & rest & -> & Hl & H). by destruct label.
  - change (Re.literals (String c lit) ++ ns)
      with (Re.Literal c :: (Re.literals lit ++ ns)).
    destruct s as [|ch s].
    + split; [done|]. intros (label & rest & H & Hl & _).
      destruct label; discriminate.
    + change (Re.match_here (Re.Literal c :: Re.literals lit ++ ns) (String ch s))
        with (if Re.literal_ic c ch then Re.match_here (Re.literals lit ++ ns) s
              else None).
      unfold Re.literal_ic, Char.eqb. destruct (Ascii.eqb_spec (Char.lower ch) (Char.lower c)) as [Heq|Hne].
      * rewrite IH. split.
        -- intros (label & rest & -> & Hl & H).
           exists (String ch label), rest. split; [done|]. split; [|done].
           unfold Str.lower in *. simpl. by rewrite Heq, Hl.
        -- intros (label & rest & H & Hl & Hm).
           destruct label as [|d label]; [discriminate|].
           rewrite app_cons in H. injection H as <- ->.
           injection Hl as _ Hl. by exists label, rest.
      * split; [done|]. intros (label & rest & H & Hl & _).
        destruct label as [|d label]; [discriminate|].
        rewrite app_cons in H. injection H as <- _. injection Hl as Hc _. done.
Qed.

Lemma match_subpattern_last n set s :
  Re.match_here [Re.Subpattern n set] s =
  match Re.take_set n set s with
  | Some (g, _) => Some [g]
  | None => None
  end.
Proof.
  change (Re.match_here [Re.Subpattern n set] s)
    with (match Re.take_set n set s with
          | Some (g, rest) =>
              match Re.match_here [] rest with
              | Some gs => Some (g :: gs)
              | None => None
              end
          | None => None
          end).
  destruct (Re.take_set n set s) as [[g rest]|]; [|done]. by destruct rest.
Qed.

(** The pattern matches at the start of [s] exactly when [s] begins with an
    occurrence, and the only group is the identifier. *)
Lemma match_pattern_spec s gs :
  Re.match_here question_id_pattern s = Some gs ↔ ∃ g, gs = [g] ∧ id_at s g.
Proof.
  unfold question_id_pattern. rewrite match_literals. split.
  - intros (label & rest & -> & Hl & H).
    apply match_star_sound in H as (seps & b & -> & Hseps & H).
    rewrite match_subpattern_last in H.
    destruct (Re.take_set 24 hex_set b) as [[g rest]|] eqn:Ht; [|done].
    injection H as <-. apply take_set_spec in Ht as (-> & Hlen & Hg).
    exists g. split; [done|]. exists label, seps, rest.
    rewrite (all_ext_s _ _ _ sep_set_ic) in Hseps.
    rewrite (all_ext_s _ _ _ hex_set_ic) in Hg. done.
  - intros (g & -> & label & seps & rest & -> & Hl & Hseps & Hlen & Hg).
    exists label, (seps +:+ g +:+ rest). split; [done|]. split; [done|].
    apply match_star_complete.
    + by rewrite (all_ext_s _ _ _ sep_set_ic).
    + assert (Re.take_set 24 hex_set (g +:+ rest) = Some (g, rest)) as Ht.
      { apply take_set_spec. by rewrite (all_ext_s _ _ _ hex_set_ic). }
      by rewrite match_subpattern_last, Ht.
    + intros ch b' Hb. rewrite sep_set_ic. apply sep_not_hex.
      destruct g as [|c g]; [discriminate|]. rewrite app_cons in Hb.
      injection Hb as -> _. simpl in Hg. by apply andb_true_iff in Hg as [? _].
Qed.

Lemma id_at_unique s g g' : id_at s g → id_at s g' → g = g'.
Proof.
  intros H H'.
  assert (Re.match_here question_id_pattern s = Some [g]) as E
    by (apply match_pattern_spec; eauto).
  assert (Re.match_here question_id_pattern s = Some [g']) as E'
    by (apply match_pattern_spec; eauto).
  congruence.
Qed.

Lemma search_unfold ns s :
  Re.search ns s =
  match Re.match_here ns s with
  | Some gs => Some gs
  | None => match s with EmptyString => None | String _ s' => Re.search ns s' end
  end.
Proof. by destruct s. Qed.

(** [search] returns the match at the first position that has one. *)
Lemma search_some ns s gs :
  Re.search ns s = Some gs ↔
  ∃ pre suf, s = pre +:+ suf ∧ Re.match_here ns suf = Some gs ∧
    ∀ pre' suf', s = pre' +:+ suf' →
      (String.length pre' < String.length pre)%nat →
      Re.match_here ns suf' = None.
Proof.
  induction s as [|c s IH]; rewrite search_unfold.
  - destruct (Re.match_here ns "") as [gs'|] eqn:Hm.
    + split.
      * intros [= ->]. exists "", "". split; [done|]. split; [done|].
        intros ?? _ Hlt. simpl in Hlt. lia.
      * intros (pre & suf & H & Hs & _). destruct pre; [|done].
        rewrite app_empty_l in H. subst suf. congruence.
    + split; [done|]. intros (pre & suf & H & Hs & _). destruct pre; [|done].
      rewrite app_empty_l in H. subst suf. congruence.
  - destruct (Re.match_here ns (String c s)) as [gs'|] eqn:Hm.
    + split.
      * intros [= ->]. exists "", (String c s). split; [done|]. split; [done|].
        intros ?? _ Hlt. simpl in Hlt. lia.
      * intros (pre & suf & H & Hs & Hmin). destruct pre as [|d pre].
        -- rewrite app_empty_l in H. subst suf. congruence.
        -- specialize (Hmin "" (String c s) eq_refl). simpl in Hmin.
           rewrite Hmin in Hm; [done|lia].
    + rewrite IH. split.
      * intros (pre & suf & -> & Hs & Hmin). exists (String c pre), suf.
        split; [done|]. split; [done|]. intros pre' suf' H Hlt.
        destruct pre' as [|d pre'].
        -- rewrite app_empty_l in H. by subst suf'.
        -- rewrite !app_cons in H. injection H as _ H.
           apply (Hmin pre' suf' H). simpl in Hlt. lia.
      * intros (pre & suf & H & Hs & Hmin). destruct pre as [|d pre].
        -- rewrite app_empty_l in H. subst suf. congruence.
        -- rewrite app_cons in H. injection H as _ ->. exists pre, suf.
           split; [done|]. split; [done|]. intros pre' suf' H Hlt.
           apply (Hmin (String c pre') suf'); [by rewrite app_cons, H|simpl; lia].
Qed.

Lemma search_none ns s :
  Re.search ns s = None ↔ ∀ pre suf, s = pre +:+ suf → Re.match_here ns suf = None.
Proof.
  induction s as [|c s IH]; rewrite search_unfold.
  - split.
    + destruct (Re.match_here ns "") eqn:Hm; [done|]. intros _ pre suf H.
      destruct pre; [|done]. rewrite app_empty_l in H. by subst suf.
    + intros H. by rewrite (H "" "" eq_refl).
  - split.
    + destruct (Re.match_here ns (String c s)) eqn:Hm; [done|].
      rewrite IH. intros Hs pre suf H. destruct pre as [|d pre].
      * rewrite app_empty_l in H. by subst suf.
      * rewrite app_cons in H. injection H as _ H. by apply (Hs pre suf).
    + intros H. rewrite (H "" (String c s) eq_refl). apply IH.
      intros pre suf ->. by apply (H (String c pre) suf).
Qed.

(** ** [extract_question_id] *)

Lemma extract_unfold q :
  extract_question_id q =
  if isna q then None
  else match Re.search question_id_pattern (py_str q) with
       | Some gs => Some (group1 gs)
       | None => None
       end.
Proof. reflexivity. Qed.

(** On a field that is not NA, extraction returns [g] exactly when the
    leftmost occurrence of the pattern in the text carries [g]. *)
Lemma extract_some_iff q g :
  isna q = false →
  extract_question_id q = Some g ↔
  ∃ pre, occurs (py_str q) pre g ∧ leftmost (py_str q) pre.
Proof.
  intros Hq. rewrite extract_unfold, Hq. split.
  - destruct (Re.search question_id_pattern (py_str q)) as [gs|] eqn:Hs; [|done].
    intros [= <-]. apply search_some in Hs as (pre & suf & Ht & Hm & Hmin).
    apply match_pattern_spec in Hm as (g & -> & Hid).
    exists pre. split; [by exists suf|]. intros pre' g' (suf' & Ht' & Hid').
    destruct (decide (String.length pre ≤ String.length pre')%nat) as [|Hlt]; [done|].
    assert (Re.match_here question_id_pattern suf' = None) as Hn
      by (apply (Hmin pre' suf' Ht'); lia).
    assert (Re.match_here question_id_pattern suf' = Some [g']) as Hy
      by (apply match_pattern_spec; eauto).
    congruence.
  - intros (pre & (suf & Ht & Hid) & Hleft).
    assert (Re.search question_id_pattern (py_str q) = Some [g]) as ->; [|done].
    apply search_some. exists pre, suf. split; [done|]. split.
    + apply match_pattern_spec. eauto.
    + intros pre' suf' Ht' Hlt.
      destruct (Re.match_here question_id_pattern suf') as [gs|] eqn:Hm; [|done].
      apply match_pattern_spec in Hm as (g' & -> & Hid').
      assert (String.length pre ≤ String.length pre')%nat
        by (apply (Hleft pre' g'); by exists suf').
      lia.
Qed.

Lemma extract_none_iff q :
  isna q = false →
  extract_question_id q = None ↔ ∀ pre g, ¬ occurs (py_str q) pre g.
Proof.
  intros Hq. rewrite extract_unfold, Hq. split.
  - destruct (Re.search question_id_pattern (py_str q)) as [gs|] eqn:Hs; [done|].
    intros _ pre g (suf & Ht & Hid).
    assert (Re.match_here question_id_pattern suf = None) as Hn
      by (eapply search_none; eauto).
    assert (Re.match_here question_id_pattern suf = Some [g]) as Hy
      by (apply match_pattern_spec; eauto).
    congruence.
  - intros Hno.
    assert (Re.search question_id_pattern (py_str q) = None) as ->; [|done].
    apply search_none. intros pre suf Ht.
    destruct (Re.match_here question_id_pattern suf) as [gs|] eqn:Hm; [|done].
    apply match_pattern_spec in Hm as (g & -> & Hid).
    destruct (Hno pre g). by exists suf.
Qed.

Lemma extract_some_occurs q g :
  extract_question_id q = Some g → ∃ pre, occurs (py_str q) pre g.
Proof.
  intros H. destruct (isna q) eqn:Hq.
  - by rewrite extract_unfold, Hq in H.
  - apply extract_some_iff in H as (pre & Ho & _); eauto.
Qed.

Lemma extract_some_length q g :
  extract_question_id q = Some g → String.length g = 24%nat.
Proof.
  intros (pre & suf & _ & label & seps & rest & _ & _ & _ & Hlen & _)%extract_some_occurs.
  done.
Qed.

(** Claim C5, as stated, fails: an identifier written with the capitals A-F
    is extracted as it stands, so the value returned need not be lowercase. *)
Lemma extract_question_id_not_always_lowercase :
  ¬ (∀ q g, extract_question_id q = Some g →
       String.length g = 24%nat ∧ Str.all is_lower_hex g = true).
Proof.
  intros H.
  destruct (H (Str "Question ID: ABCDEFABCDEFABCDEFABCDEF")
              "ABCDEFABCDEFABCDEFABCDEF" eq_refl) as [_ Hlow].
  vm_compute in Hlow. discriminate.
Qed.

(** Claim C5, amended: whenever extraction succeeds, the value returned has
    24 characters, each a digit or one of the letters a-f in either case,
    and it is the very substring of the text that follows the label
    "Question ID" (in any case) and the separators after it. *)
Theorem extract_question_id_shape q g :
  extract_question_id q = Some g →
  String.length g = 24%nat ∧
  Str.all is_hex g = true ∧
  ∃ pre label seps rest,
    py_str q = pre +:+ label +:+ seps +:+ g +:+ rest ∧
    Str.lower label = "question id" ∧
    Str.all is_sep seps = true.
Proof.
  intros (pre & suf & Ht & Hid)%extract_some_occurs.
  destruct Hid as (label & seps & rest & -> & Hl & Hs & Hlen & Hhex).
  split; [done|]. split; [done|]. by exists pre, label, seps, rest.
Qed.

Lemma extract_question_id_shape_witness :
  extract_question_id (Str "see question id : 0123456789ABCdef01234567 (JEE)")
    = Some "0123456789ABCdef01234567" ∧
  String.length "0123456789ABCdef01234567" = 24%nat ∧
  Str.all is_hex "0123456789ABCdef01234567" = true.
Proof.
  split; [reflexivity|].
  pose proof (extract_question_id_shape
                (Str "see question id : 0123456789ABCdef01234567 (JEE)")
                "0123456789ABCdef01234567" eq_refl) as (Hl & Hh & _).
  split; [exact Hl|exact Hh].
Defined.

(** Claim C6: a null field, an empty text and a text in which the pattern
    does not occur give the absent result; when the pattern occurs, also
    more than once, the identifier returned is that of the occurrence that
    starts first. *)
Theorem extract_question_id_absent_or_first :
  extract_question_id NA = None ∧
  extract_question_id (Str "") = None ∧
  (∀ text, (∀ pre g, ¬ occurs text pre g) →
     extract_question_id (Str text) = None) ∧
  (∀ text pre g, occurs text pre g → leftmost text pre →
     extract_question_id (Str text) = Some g).
Proof.
  split; [done|]. split; [done|]. split.
  - intros text H. by apply (extract_none_iff (Str text)).
  - intros text pre g Ho Hl. apply (extract_some_iff (Str text)); [done|]. eauto.
Qed.

Lemma occurs_here label seps g rest :
  Str.lower label = "question id" → Str.all is_sep seps = true →
  String.length g = 24%nat → Str.all is_hex g = true →
  occurs (label +:+ seps +:+ g +:+ rest) "" g.
Proof. intros. exists (label +:+ seps +:+ g +:+ rest). split; [done|]. by exists label, seps, rest. Qed.

Lemma leftmost_start text : leftmost text "".
Proof. intros pre' g' _. simpl. lia. Qed.

Lemma extract_question_id_absent_or_first_witness :
  extract_question_id
    (Str "Question ID: aaaaaaaaaaaaaaaaaaaaaaaa, Question ID: bbbbbbbbbbbbbbbbbbbbbbbb")
  = Some "aaaaaaaaaaaaaaaaaaaaaaaa".
Proof.
  apply (proj2 (proj2 (proj2 extract_question_id_absent_or_first))) with (pre := "").
  - apply (occurs_here "Question ID" ": " "aaaaaaaaaaaaaaaaaaaaaaaa"
             ", Question ID: bbbbbbbbbbbbbbbbbbbbbbbb"); reflexivity.
  - apply leftmost_start.
Defined.

(** Claim C10, as stated, fails: when the pattern already occurs earlier in
    the text, the identifier of that earlier occurrence is returned and not
    the first 24 characters of the long run. *)
Lemma extract_question_id_long_run_not_always_returned :
  ¬ (∀ text pre label seps run post,
       text = pre +:+ label +:+ seps +:+ run +:+ post →
       Str.lower label = "question id" →
       Str.all is_sep seps = true →
       Str.all is_hex run = true →
       (24 < String.length run)%nat →
       extract_question_id (Str text) = Some (Str.take 24 run)).
Proof.
  intros H.
  specialize (H "Question ID: aaaaaaaaaaaaaaaaaaaaaaaa Question ID: bbbbbbbbbbbbbbbbbbbbbbbbbbbbbb"
                "Question ID: aaaaaaaaaaaaaaaaaaaaaaaa " "Question ID" ": "
                "bbbbbbbbbbbbbbbbbbbbbbbbbbbbbb" ""
                eq_refl eq_refl eq_refl eq_refl).
  vm_compute in H. specialize (H ltac:(lia)). discriminate.
Qed.

(** Claim C10, amended: a text in which the label is followed by a run of
    more than 24 hexadecimal characters never gives the absent result, the
    value returned always has 24 characters, and when no occurrence of the
    pattern starts earlier in the text it is the first 24 characters of
    that run. *)
Theorem extract_question_id_truncates text pre label seps run post :
  text = pre +:+ label +:+ seps +:+ run +:+ post →
  Str.lower label = "question id" →
  Str.all is_sep seps = true →
  Str.all is_hex run = true →
  (24 < String.length run)%nat →
  (∃ g, extract_question_id (Str text) = Some g ∧ String.length g = 24%nat) ∧
  (leftmost text pre →
   extract_question_id (Str text) = Some (Str.take 24 run)).
Proof.
  intros -> Hl Hs Hh Hlen.
  assert (occurs (pre +:+ label +:+ seps +:+ run +:+ post) pre (Str.take 24 run))
    as Ho.
  { exists (label +:+ seps +:+ run +:+ post). split; [done|].
    exists label, seps, (Str.drop 24 run +:+ post).
    rewrite <- (app_assoc_s (Str.take 24 run)), take_drop_s.
    split; [done|]. split; [done|].
    split; [done|]. split; [apply take_length_s; lia|by apply all_take_s]. }
  split.
  - destruct (extract_question_id (Str (pre +:+ label +:+ seps +:+ run +:+ post)))
      as [g|] eqn:He.
    + exists g. split; [done|]. by apply extract_some_length in He.
    + pose proof (proj1 (extract_none_iff (Str _) eq_refl) He) as Hno.
      by destruct (Hno _ _ Ho).
  - intros Hleft. apply (extract_some_iff (Str _)); [done|]. eauto.
Qed.

Lemma extract_question_id_truncates_witness :
  extract_question_id (Str "Question ID:0123456789abcdef0123456789abcdef!")
  = Some "0123456789abcdef01234567".
Proof.
  apply (extract_question_id_truncates
           "Question ID:0123456789abcdef0123456789abcdef!"
           "" "Question ID" ":" "0123456789abcdef0123456789abcdef" "!");
    [reflexivity|reflexivity|reflexivity|reflexivity|simpl; lia|apply leftmost_start].
Defined.

(** ** [get_priority] *)

Lemma contains_lower_mentions kw text :
  Str.contains kw (Str.lower text) = true ↔ mentions kw text.
Proof.
  rewrite contains_spec. unfold mentions, Str.lower. split.
  - intros (a & b & H).
    apply map_app_inv in H as (s1 & s2 & -> & _ & H).
    apply map_app_inv in H as (occ & s3 & -> & Hocc & _).
    by exists s1, occ, s3.
  - intros (a & occ & b & -> & <-).
    exists (Str.map Char.lower a), (Str.map Char.lower b).
    by rewrite !map_app_s.
Qed.

Lemma any_keyword (kws : list string) text :
  existsb (λ p, Str.contains p (Str.lower text)) kws = true ↔
  ∃ kw, kw ∈ kws ∧ mentions kw text.
Proof.
  rewrite existsb_exists. split.
  - intros (kw & Hin & H). exists kw. rewrite list_elem_of_In.
    by rewrite <- contains_lower_mentions.
  - intros (kw & Hin & H). exists kw. rewrite <- list_elem_of_In.
    by rewrite contains_lower_mentions.
Qed.

Lemma no_keyword (kws : list string) text :
  existsb (λ p, Str.contains p (Str.lower text)) kws = false ↔
  ∀ kw, kw ∈ kws → ¬ mentions kw text.
Proof.
  rewrite <- not_true_iff_false, any_keyword. split.
  - intros H kw Hin Hm. apply H. eauto.
  - intros H (kw & Hin & Hm). by apply (H kw).
Qed.

(** Claim C4: a text that mentions a tier-1 keyword, in any case, is given
    tier 1 whatever else it mentions; the groups are tried in the order
    1, 2, 3 and a text that mentions no keyword, an empty text and a null
    field are given tier 4. *)
Theorem get_priority_precedence :
  (∀ text kw, kw ∈ ["jee advanced"; "jee adv"; "advanced"] →
     mentions kw text → get_priority (Str text) = 1) ∧
  (∀ text kw,
     (∀ k1, k1 ∈ ["jee advanced"; "jee adv"; "advanced"] → ¬ mentions k1 text) →
     kw ∈ ["jee main"; "jee mains"; "mains"] →
     mentions kw text → get_priority (Str text) = 2) ∧
  (∀ text,
     (∀ k1, k1 ∈ ["jee advanced"; "jee adv"; "advanced"] → ¬ mentions k1 text) →
     (∀ k2, k2 ∈ ["jee main"; "jee mains"; "mains"] → ¬ mentions k2 text) →
     mentions "ncert" text → get_priority (Str text) = 3) ∧
  (∀ text,
     (∀ k1, k1 ∈ ["jee advanced"; "jee adv"; "advanced"] → ¬ mentions k1 text) →
     (∀ k2, k2 ∈ ["jee main"; "jee mains"; "mains"] → ¬ mentions k2 text) →
     ¬ mentions "ncert" text → get_priority (Str text) = 4) ∧
  get_priority (Str "") = 4 ∧
  get_priority NA = 4.
Proof.
  assert (∀ text, get_priority (Str text) =
            if existsb (λ p, Str.contains p (Str.lower text)) tier1_keywords then 1
            else if existsb (λ p, Str.contains p (Str.lower text)) tier2_keywords then 2
            else if Str.contains "ncert" (Str.lower text) then 3 else 4) as Hunfold
    by reflexivity.
  repeat split; try reflexivity.
  - intros text kw Hkw Hm. rewrite Hunfold.
    assert (existsb (λ p, Str.contains p (Str.lower text)) tier1_keywords = true)
      as -> by (apply any_keyword; eauto).
    done.
  - intros text kw H1 Hkw Hm. rewrite Hunfold.
    apply no_keyword in H1. unfold tier1_keywords. rewrite H1.
    assert (existsb (λ p, Str.contains p (Str.lower text)) tier2_keywords = true)
      as -> by (apply any_keyword; eauto).
    done.
  - intros text H1 H2 Hm. rewrite Hunfold.
    apply no_keyword in H1, H2. unfold tier1_keywords, tier2_keywords.
    rewrite H1, H2. apply contains_lower_mentions in Hm. by rewrite Hm.
  - intros text H1 H2 Hm. rewrite Hunfold.
    apply no_keyword in H1, H2. unfold tier1_keywords, tier2_keywords.
    rewrite H1, H2.
    destruct (Str.contains "ncert" (Str.lower text)) eqn:Hc; [|done].
    by apply contains_lower_mentions in Hc.
Qed.

Lemma get_priority_precedence_witness :
  get_priority (Str "NCERT exemplar, also asked in JEE Adv. and Mains") = 1.
Proof.
  apply (proj1 get_priority_precedence) with (kw := "jee adv").
  - set_solver.
  - by exists "NCERT exemplar, also asked in ", "JEE Adv", ". and Mains".
Defined.

(** ** The resolver loop *)

Lemma truthy_extract q g : extract_question_id q = Some g → truthy (Some g) = true.
Proof. intros H%extract_some_length. by destruct g. Qed.

Lemma resolve_pair_both q1 q2 id1 id2 :
  extract_question_id q1 = Some id1 →
  extract_question_id q2 = Some id2 →
  resolve_pair q1 q2 =
  Some (if get_priority q1 <=? get_priority q2
        then selection (Some id1) (Some id2) (get_priority q1) (get_priority q2)
               "question_1"
        else selection (Some id2) (Some id1) (get_priority q2) (get_priority q1)
               "question_2").
Proof.
  intros H1 H2. unfold resolve_pair.
  rewrite H1, H2, (truthy_extract _ _ H1), (truthy_extract _ _ H2). simpl.
  by destruct (get_priority q1 <=? get_priority q2).
Qed.

Lemma resolve_pair_missing q1 q2 :
  extract_question_id q1 = None ∨ extract_question_id q2 = None →
  resolve_pair q1 q2 = None.
Proof.
  intros [H|H]; unfold resolve_pair; rewrite H; simpl; [done|].
  by rewrite andb_false_r.
Qed.

Lemma process_row_read cols results row q1 q2 :
  Frame.row_get cols row "question_1" = Some q1 →
  Frame.row_get cols row "question_2" = Some q2 →
  process_row cols results row =
  match resolve_pair q1 q2 with
  | Some d => Ok (results ++ [d])
  | None => Ok results
  end.
Proof. intros H1 H2. unfold process_row, Frame.row_item. by rewrite H1, H2. Qed.

(** Claim C2: when both fields of a pair yield an identifier, the row
    appended to the results selects question_1 if its tier is at most that
    of question_2 (so also on a tie), with the identifiers and tiers in
    that order, and selects question_2 with the symmetric content
    otherwise. *)
Theorem process_row_selects cols results row question_1 question_2 id1 id2 :
  Frame.row_get cols row "question_1" = Some question_1 →
  Frame.row_get cols row "question_2" = Some question_2 →
  extract_question_id question_1 = Some id1 →
  extract_question_id question_2 = Some id2 →
  let p1 := get_priority question_1 in
  let p2 := get_priority question_2 in
  (p1 ≤ p2 →
   process_row cols results row =
   Ok (results ++ [[("selected_question_id", Str id1);
                    ("rejected_question_id", Str id2);
                    ("selected_priority", Int p1);
                    ("rejected_priority", Int p2);
                    ("chosen", Str "question_1")]])) ∧
  (p2 < p1 →
   process_row cols results row =
   Ok (results ++ [[("selected_question_id", Str id2);
                    ("rejected_question_id", Str id1);
                    ("selected_priority", Int p2);
                    ("rejected_priority", Int p1);
                    ("chosen", Str "question_2")]])).
Proof.
  intros Hc1 Hc2 H1 H2 p1 p2.
  rewrite (process_row_read _ _ _ _ _ Hc1 Hc2), (resolve_pair_both _ _ _ _ H1 H2).
  fold p1 p2. split; intros Hp.
  - by apply Z.leb_le in Hp as ->.
  - by apply Z.leb_gt in Hp as ->.
Qed.

Lemma process_row_selects_witness :
  process_row ["question_1"; "question_2"] []
    [Str "Q1. Question ID: aaaaaaaaaaaaaaaaaaaaaaaa JEE Advanced 2019";
     Str "Q7. Question ID: bbbbbbbbbbbbbbbbbbbbbbbb NCERT"] =
  Ok [[("selected_question_id", Str "aaaaaaaaaaaaaaaaaaaaaaaa");
       ("rejected_question_id", Str "bbbbbbbbbbbbbbbbbbbbbbbb");
       ("selected_priority", Int 1);
       ("rejected_priority", Int 3);
       ("chosen", Str "question_1")]].
Proof.
  apply (proj1 (process_row_selects ["question_1"; "question_2"] []
     [Str "Q1. Question ID: aaaaaaaaaaaaaaaaaaaaaaaa JEE Advanced 2019";
      Str "Q7. Question ID: bbbbbbbbbbbbbbbbbbbbbbbb NCERT"]
     (Str "Q1. Question ID: aaaaaaaaaaaaaaaaaaaaaaaa JEE Advanced 2019")
     (Str "Q7. Question ID: bbbbbbbbbbbbbbbbbbbbbbbb NCERT")
     "aaaaaaaaaaaaaaaaaaaaaaaa" "bbbbbbbbbbbbbbbbbbbbbbbb"
     eq_refl eq_refl eq_refl eq_refl)).
  vm_compute. discriminate.
Defined.

Lemma collect_results_skip cols before row after :
  (∀ acc, process_row cols acc row = Ok acc) →
  collect_results {| columns := cols; rows := before ++ row :: after |} =
  collect_results {| columns := cols; rows := before ++ after |}.
Proof.
  intros Hskip. unfold collect_results. simpl. rewrite !foldl_app. simpl.
  f_equal. destruct (foldl _ _ before) as [acc|e]; [apply Hskip|done].
Qed.

(** Claim C3: a pair for which extraction is absent on either side appends
    nothing to the results and raises nothing, and the results of the
    whole batch are those of the batch without that pair. *)
Theorem process_row_skips cols results row question_1 question_2 :
  Frame.row_get cols row "question_1" = Some question_1 →
  Frame.row_get cols row "question_2" = Some question_2 →
  extract_question_id question_1 = None ∨ extract_question_id question_2 = None →
  process_row cols results row = Ok results ∧
  ∀ before after,
    collect_results {| columns := cols; rows := before ++ row :: after |} =
    collect_results {| columns := cols; rows := before ++ after |}.
Proof.
  intros Hc1 Hc2 Hmiss.
  assert (∀ acc, process_row cols acc row = Ok acc) as Hskip.
  { intros acc. by rewrite (process_row_read _ _ _ _ _ Hc1 Hc2),
      (resolve_pair_missing _ _ Hmiss). }
  split; [apply Hskip|]. intros before after. by apply collect_results_skip.
Qed.

Lemma process_row_skips_witness :
  process_row ["question_1"; "question_2"] []
    [Str "What is the SI unit of force? (JEE Mains)";
     Str "Question ID: bbbbbbbbbbbbbbbbbbbbbbbb NCERT"] = Ok [].
Proof.
  apply (process_row_skips ["question_1"; "question_2"] []
    [Str "What is the SI unit of force? (JEE Mains)";
     Str "Question ID: bbbbbbbbbbbbbbbbbbbbbbbb NCERT"]
    (Str "What is the SI unit of force? (JEE Mains)")
    (Str "Question ID: bbbbbbbbbbbbbbbbbbbbbbbb NCERT")
    eq_refl eq_refl).
  left. reflexivity.
Defined.

(** ** Keeping first occurrences *)

Section keep_first.
Context {A K : Type} `{EqDecision K} (key : A → K).

Lemma keep_first_sublist seen l : sublist (Frame.keep_first key seen l) l.
Proof.
  revert seen. induction l as [|x l IH]; intros seen; simpl; [constructor|].
  destruct (decide (key x ∈ seen)).
  - by apply sublist_cons.
  - by apply sublist_skip.
Qed.

Lemma keep_first_not_seen seen l x :
  x ∈ Frame.keep_first key seen l → key x ∉ seen.
Proof.
  revert seen. induction l as [|y l IH]; intros seen; simpl.
  - by intros ?%elem_of_nil.
  - destruct (decide (key y ∈ seen)) as [|Hy]; [apply IH|].
    intros [->|Hx]%elem_of_cons; [done|].
    apply IH in Hx. by apply not_elem_of_cons in Hx as [_ ?].
Qed.

Lemma keep_first_NoDup seen l : NoDup (key <$> Frame.keep_first key seen l).
Proof.
  revert seen. induction l as [|x l IH]; intros seen; simpl; [constructor|].
  destruct (decide (key x ∈ seen)) as [|Hx]; [apply IH|].
  rewrite fmap_cons. apply NoDup_cons. split; [|apply IH].
  intros (y & Hk & Hy)%list_elem_of_fmap.
  apply keep_first_not_seen in Hy. apply Hy. rewrite Hk. by left.
Qed.

Lemma keep_first_covers seen l x :
  x ∈ l → key x ∉ seen →
  ∃ x0, x0 ∈ Frame.keep_first key seen l ∧ key x0 = key x.
Proof.
  revert seen. induction l as [|y l IH]; intros seen; simpl.
  - by intros ?%elem_of_nil.
  - intros Hx Hseen. destruct (decide (key y ∈ seen)) as [Hy|Hy].
    + apply elem_of_cons in Hx as [->|Hx]; [done|]. by apply IH.
    + destruct (decide (key y = key x)) as [Heq|Hne].
      * exists y. split; [by left|done].
      * apply elem_of_cons in Hx as [->|Hx]; [done|].
        destruct (IH (key y :: seen) Hx) as (x0 & Hx0 & Hk).
        { apply not_elem_of_cons. split; [congruence|done]. }
        exists x0. split; [by right|done].
Qed.

Lemma keep_first_earliest seen l x :
  x ∈ Frame.keep_first key seen l →
  ∃ i, l !! i = Some x ∧
       ∀ j y, (j < i)%nat → l !! j = Some y → key y ≠ key x.
Proof.
  revert seen. induction l as [|y l IH]; intros seen; simpl.
  - by intros ?%elem_of_nil.
  - destruct (decide (key y ∈ seen)) as [Hy|Hy].
    + intros Hx. pose proof (keep_first_not_seen _ _ _ Hx) as Hxs.
      destruct (IH _ Hx) as (i & Hi & Hmin). exists (S i). split; [done|].
      intros [|j] z Hlt; simpl.
      * intros [= <-] Heq. apply Hxs. by rewrite <- Heq.
      * apply Hmin. lia.
    + intros [->|Hx]%elem_of_cons.
      * exists O. split; [done|]. intros j z Hlt. lia.
      * pose proof (keep_first_not_seen _ _ _ Hx) as Hxs.
        destruct (IH _ Hx) as (i & Hi & Hmin). exists (S i). split; [done|].
        intros [|j] z Hlt; simpl.
        -- intros [= <-] Heq. apply Hxs. rewrite Heq. by left.
        -- apply Hmin. lia.
Qed.

Lemma keep_first_all_seen seen l :
  (∀ x, x ∈ l → key x ∈ seen) → Frame.keep_first key seen l = [].
Proof.
  induction l as [|x l IH]; intros H; simpl; [done|].
  destruct (decide (key x ∈ seen)) as [|Hx].
  - apply IH. intros y Hy. apply H. by right.
  - destruct Hx. apply H. by left.
Qed.

Lemma keep_first_seen_ext seen seen' l :
  (∀ k, k ∈ seen ↔ k ∈ seen') →
  Frame.keep_first key seen l = Frame.keep_first key seen' l.
Proof.
  revert seen seen'. induction l as [|x l IH]; intros seen seen' H; simpl; [done|].
  destruct (decide (key x ∈ seen)) as [Hx|Hx], (decide (key x ∈ seen')) as [Hx'|Hx'].
  - by apply IH.
  - by apply H in Hx.
  - by apply H in Hx'.
  - f_equal. apply IH. intros k. rewrite !elem_of_cons, H. done.
Qed.

Lemma keep_first_fresh_prefix seen l1 l2 :
  NoDup (key <$> l1) → (∀ x, x ∈ l1 → key x ∉ seen) →
  Frame.keep_first key seen (l1 ++ l2) =
  l1 ++ Frame.keep_first key (reverse (key <$> l1) ++ seen) l2.
Proof.
  revert seen. induction l1 as [|x l1 IH]; intros seen Hnd Hfresh; [done|].
  rewrite fmap_cons in Hnd. apply NoDup_cons in Hnd as [Hx Hnd]. simpl.
  destruct (decide (key x ∈ seen)) as [Hs|_].
  - destruct (Hfresh x); [by left|done].
  - f_equal. rewrite IH; [|done|].
    + change (key <$> x :: l1) with (key x :: (key <$> l1)).
      by rewrite reverse_cons, <- app_assoc.
    + intros y Hy. apply not_elem_of_cons. split.
      * intros Heq. apply Hx. rewrite <- Heq. by apply list_elem_of_fmap_2.
      * apply Hfresh. by right.
Qed.

End keep_first.

(** Keeping first occurrences commutes with a map that translates the keys
    injectively. *)
Lemma keep_first_map {A B K1 K2} `{EqDecision K1, EqDecision K2}
    (f : A → B) (key1 : B → K1) (key2 : A → K2) (h : K2 → K1) seen l :
  Inj (=) (=) h →
  (∀ x, x ∈ l → key1 (f x) = h (key2 x)) →
  Frame.keep_first key1 (h <$> seen) (f <$> l) =
  f <$> Frame.keep_first key2 seen l.
Proof.
  intros Hinj. revert seen. induction l as [|x l IH]; intros seen H; [done|].
  rewrite fmap_cons. simpl. rewrite (H x) by (by left).
  assert (∀ y, y ∈ l → key1 (f y) = h (key2 y)) as H' by (intros; apply H; by right).
  destruct (decide (h (key2 x) ∈ h <$> seen)) as [Hx|Hx],
           (decide (key2 x ∈ seen)) as [Hx'|Hx'].
  - by apply IH.
  - apply list_elem_of_fmap in Hx as (k & Heq & Hk). apply Hinj in Heq.
    by subst k.
  - destruct Hx. apply list_elem_of_fmap. eauto.
  - rewrite fmap_cons. f_equal. by apply (IH (key2 x :: seen)).
Qed.

(** ** Results of the loop and the table built from them *)

Lemma map_fmap {A B} (f : A → B) (l : list A) : map f l = f <$> l.
Proof. reflexivity. Qed.

Lemma foldl_raise cols e (l : list (list cell)) :
  foldl (λ acc row, results ← acc; process_row cols results row) (Raise e) l
  = Raise e.
Proof. induction l as [|row l IH]; [done|]. simpl. apply IH. Qed.

Lemma process_row_ok cols acc row results :
  process_row cols acc row = Ok results →
  results = acc ++ option_list (row_selection cols row).
Proof.
  unfold process_row, row_selection, Frame.row_item.
  destruct (Frame.row_get cols row "question_1") as [q1|]; [|done].
  destruct (Frame.row_get cols row "question_2") as [q2|]; [|done]. simpl.
  destruct (resolve_pair q1 q2) as [d|]; intros [= <-]; [done|].
  by rewrite app_nil_r.
Qed.

Lemma foldl_process_ok cols acc l results :
  foldl (λ acc row, results ← acc; process_row cols results row) (Ok acc) l
  = Ok results →
  results = acc ++ omap (row_selection cols) l.
Proof.
  revert acc. induction l as [|row l IH]; intros acc; simpl.
  - intros [= <-]. by rewrite app_nil_r.
  - destruct (process_row cols acc row) as [acc'|e] eqn:Hrow.
    + intros H%IH. apply process_row_ok in Hrow as ->.
      rewrite H, <- app_assoc. f_equal.
      by destruct (row_selection cols row).
    + by rewrite foldl_raise.
Qed.

(** When the loop ends normally, the accumulated list holds, in input
    order, the selections of the rows that have one. *)
Lemma collect_results_ok df results :
  collect_results df = Ok results →
  results = omap (row_selection (columns df)) (rows df).
Proof. apply foldl_process_ok. Qed.

Lemma foldl_process_total cols acc l :
  Forall (λ row, is_Some (Frame.row_get cols row "question_1") ∧
                 is_Some (Frame.row_get cols row "question_2")) l →
  foldl (λ acc row, results ← acc; process_row cols results row) (Ok acc) l
  = Ok (acc ++ omap (row_selection cols) l).
Proof.
  intros H. revert acc. induction H as [|row l [[q1 H1] [q2 H2]] _ IH]; intros acc; simpl.
  - by rewrite app_nil_r.
  - rewrite (process_row_read _ _ _ _ _ H1 H2).
    unfold row_selection. rewrite H1, H2. simpl.
    destruct (resolve_pair q1 q2) as [d|]; rewrite IH; [|done].
    by rewrite <- app_assoc.
Qed.

Lemma row_selection_shape cols row d :
  row_selection cols row = Some d → is_selection d.
Proof.
  unfold row_selection.
  destruct (Frame.row_get cols row "question_1") as [q1|]; [|done].
  destruct (Frame.row_get cols row "question_2") as [q2|]; [|done]. simpl.
  unfold resolve_pair, is_selection.
  destruct (truthy _ && truthy _); [|done].
  destruct (_ <=? _); intros [= <-]; eauto 10.
Qed.

Lemma omap_selection_shape cols l :
  Forall is_selection (omap (row_selection cols) l).
Proof.
  induction l as [|row l IH]; simpl; [constructor|].
  destruct (row_selection cols row) as [d|] eqn:Hd; [|done].
  constructor; [by eapply row_selection_shape|done].
Qed.

Lemma selection_keys d : is_selection d → map fst d = selection_columns.
Proof. by intros (sel & rej & sp & rp & ch & ->). Qed.

Lemma selection_row d :
  is_selection d →
  map (λ c, default NA (Frame.dict_get d c)) selection_columns = values d.
Proof. by intros (sel & rej & sp & rp & ch & ->). Qed.

Lemma selection_cell d :
  is_selection d →
  Frame.cell_of selection_columns (values d) "selected_question_id" = selected_id d.
Proof. by intros (sel & rej & sp & rp & ch & ->). Qed.

Lemma of_dicts_columns (results : list dict) :
  Forall is_selection results → results ≠ [] →
  Frame.keep_first id [] (concat (map (map fst) results)) = selection_columns.
Proof.
  intros H Hne. destruct H as [|d results Hd H]; [done|]. simpl.
  rewrite (selection_keys d Hd).
  rewrite keep_first_fresh_prefix.
  - rewrite keep_first_all_seen; [by rewrite app_nil_r|].
    intros k Hk. unfold id.
    apply list_elem_of_In, in_concat in Hk as (ks & Hks & Hin).
    apply in_map_iff in Hks as (d' & <- & Hd').
    rewrite Forall_forall in H. apply list_elem_of_In, H in Hd'.
    rewrite (selection_keys d' Hd') in Hin. apply list_elem_of_In in Hin.
    rewrite list_fmap_id, app_nil_r. by apply elem_of_reverse.
  - rewrite list_fmap_id. by apply (bool_decide_unpack _).
  - intros x _. apply not_elem_of_nil.
Qed.

(** The table built from the accumulated selections. *)
Lemma of_dicts_selections (results : list dict) :
  Forall is_selection results → results ≠ [] →
  Frame.of_dicts results =
  {| columns := selection_columns; rows := values <$> results |}.
Proof.
  intros H Hne. unfold Frame.of_dicts. rewrite (of_dicts_columns _ H Hne).
  f_equal. rewrite map_fmap. apply list_fmap_ext. intros i d Hd.
  apply selection_row. rewrite Forall_forall in H. apply H.
  by eapply list_elem_of_lookup_2.
Qed.

Lemma drop_duplicates_selections (results : list dict) :
  Forall is_selection results →
  Frame.drop_duplicates ["selected_question_id"] (Frame.of_dicts results) =
  Ok {| columns := match results with [] => [] | _ => selection_columns end;
        rows := values <$> Frame.keep_first selected_id [] results |}.
Proof.
  intros H. destruct results as [|d results]; [done|].
  rewrite (of_dicts_selections _ H) by done.
  unfold Frame.drop_duplicates.
  change (Frame.empty _) with false.
  change (Frame.missing _ _) with (@nil string). cbv iota. f_equal. f_equal.
  cbn [columns rows].
  apply (keep_first_map values _ selected_id (λ c, [c]) []).
  - by intros c c' [= ->].
  - intros x Hx. rewrite Forall_forall in H.
    cbn [map]. by rewrite (selection_cell x (H x Hx)).
Qed.

(** ** Running the methods *)

Section Runs.
Variable read_excel : string → res DataFrame.
Variable read_csv : string → res DataFrame.
Variable today : string.

Lemma convert_unsupported file_path tr :
  Str.lower (Path.splitext file_path).2 ≠ ".xlsx" →
  Str.lower (Path.splitext file_path).2 ≠ ".csv" →
  convert_xlsx_to_csv read_excel read_csv file_path tr =
  (Raise (ValueError "Unsupported file format!"), tr).
Proof.
  intros H1 H2. unfold convert_xlsx_to_csv.
  destruct (decide _) as [|_]; [done|]. destruct (decide _) as [|_]; done.
Qed.

Lemma process_duplicates_run file_path tr :
  process_duplicates read_excel read_csv file_path tr =
  match convert_xlsx_to_csv read_excel read_csv file_path tr with
  | (Raise e, tr0) => (Raise e, tr0)
  | (Ok df, tr0) =>
      let tr1 := tr0 ++ [Stdout (Loaded (Frame.len df))] in
      match collect_results df with
      | Raise e => (Raise e, tr1)
      | Ok results =>
          match Frame.drop_duplicates ["selected_question_id"]
                  (Frame.of_dicts results) with
          | Raise e => (Raise e, tr1)
          | Ok out =>
              (Ok out,
               tr1 ++ [ToCsv "final_selection_questions.csv" out;
                       Stdout (SelectionCreated (Frame.len out))])
          end
      end
  end.
Proof.
  unfold process_duplicates, mbind, IO_bind, mret, IO_ret, lift, print, to_csv, emit.
  destruct (convert_xlsx_to_csv read_excel read_csv file_path tr) as [[df|e] tr0]; [|done].
  simpl. destruct (collect_results df) as [results|e]; [|done].
  destruct (Frame.drop_duplicates _ _) as [out|e]; [|done].
  by rewrite <- app_assoc.
Qed.

Lemma main_run file_path tr :
  main read_excel read_csv today file_path tr =
  match process_duplicates read_excel read_csv file_path tr with
  | (Raise e, tr0) => (Raise e, tr0)
  | (Ok results, tr0) =>
      match create_priority_mapping results tr0 with
      | (Raise e, tr1) => (Raise e, tr1)
      | (Ok _, tr1) =>
          match validate_and_report today results tr1 with
          | (Raise e, tr2) => (Raise e, tr2)
          | (Ok _, tr2) => (Ok tt, tr2 ++ [Stdout Completed])
          end
      end
  end.
Proof.
  unfold main, mbind, IO_bind.
  destruct (process_duplicates _ _ _ _) as [[results|e] tr0]; [|done].
  destruct (create_priority_mapping _ _) as [[m|e] tr1]; [|done].
  destruct (validate_and_report _ _ _) as [[c|e] tr2]; done.
Qed.

End Runs.

(** ** [process_duplicates] *)

Lemma process_duplicates_ok read_excel read_csv file_path tr out tr' :
  process_duplicates read_excel read_csv file_path tr = (Ok out, tr') →
  ∃ df tr0 results,
    convert_xlsx_to_csv read_excel read_csv file_path tr = (Ok df, tr0) ∧
    results = omap (row_selection (columns df)) (rows df) ∧
    out = {| columns := match results with [] => [] | _ => selection_columns end;
             rows := values <$> Frame.keep_first selected_id [] results |} ∧
    tr' = tr0 ++ [Stdout (Loaded (Frame.len df));
                  ToCsv "final_selection_questions.csv" out;
                  Stdout (SelectionCreated (Frame.len out))].
Proof.
  rewrite process_duplicates_run.
  destruct (convert_xlsx_to_csv _ _ _ _) as [[df|e] tr0]; [|done]. cbv zeta.
  destruct (collect_results df) as [results|e] eqn:Hres; [|done].
  apply collect_results_ok in Hres.
  rewrite drop_duplicates_selections
    by (rewrite Hres; apply omap_selection_shape).
  intros [= <- <-]. exists df, tr0, results.
  split; [done|]. split; [done|]. split; [done|]. by rewrite <- app_assoc.
Qed.

(** Claim C1: the table [process_duplicates] returns has no two rows with
    the same selected identifier; its rows are, in input order, selections
    accumulated by the loop; every identifier selected by some pair is
    present; and the row kept for an identifier is the one of the first
    pair that selected it, every later selection of that identifier being
    dropped whatever else it holds. *)
Theorem process_duplicates_keeps_first read_excel read_csv file_path tr out tr' :
  process_duplicates read_excel read_csv file_path tr = (Ok out, tr') →
  NoDup (selected_cell out <$> rows out) ∧
  ∃ df tr0 results kept,
    convert_xlsx_to_csv read_excel read_csv file_path tr = (Ok df, tr0) ∧
    results = omap (row_selection (columns df)) (rows df) ∧
    rows out = values <$> kept ∧
    sublist kept results ∧
    NoDup (selected_id <$> kept) ∧
    (∀ d, d ∈ results → ∃ d0, d0 ∈ kept ∧ selected_id d0 = selected_id d) ∧
    (∀ d, d ∈ kept →
       ∃ i, results !! i = Some d ∧
            ∀ j d', (j < i)%nat → results !! j = Some d' →
                    selected_id d' ≠ selected_id d).
Proof.
  intros (df & tr0 & results & Hconv & Hres & -> & _)%process_duplicates_ok.
  pose proof (keep_first_NoDup selected_id [] results) as Hnd.
  split.
  - cbn [rows]. rewrite <- list_fmap_compose.
    destruct results as [|d0 results']; [constructor|].
    set (results := d0 :: results') in *.
    erewrite list_fmap_ext; [exact Hnd|]. intros i d Hd. simpl.
    apply selection_cell.
    assert (Forall is_selection results) as Hall
      by (rewrite Hres; apply omap_selection_shape).
    rewrite Forall_forall in Hall. apply Hall.
    apply list_elem_of_lookup_2 in Hd.
    eapply elem_of_sublist; [exact Hd|apply keep_first_sublist].
  - exists df, tr0, results, (Frame.keep_first selected_id [] results).
    split; [done|]. split; [done|]. split; [done|].
    split; [apply keep_first_sublist|]. split; [done|]. split.
    + intros d Hd. apply keep_first_covers; [done|apply not_elem_of_nil].
    + intros d Hd. by eapply keep_first_earliest.
Qed.

Lemma process_duplicates_keeps_first_witness :
  process_duplicates sample_reader sample_reader "pairs.csv" [] =
    (Ok sample_selection,
     [Stdout (Loaded 5);
      ToCsv "final_selection_questions.csv" sample_selection;
      Stdout (SelectionCreated 2)]) ∧
  NoDup (selected_cell sample_selection <$> rows sample_selection).
Proof.
  split; [reflexivity|].
  exact (proj1 (process_duplicates_keeps_first sample_reader sample_reader
                  "pairs.csv" [] sample_selection _ eq_refl)).
Defined.

(** ** [create_priority_mapping] *)

Lemma missing_nil names cols :
  Forall (λ n, n ∈ cols) names → Frame.missing names cols = [].
Proof.
  unfold Frame.missing. induction 1 as [|n names Hn _ IH]; [done|].
  rewrite filter_cons. by destruct (decide (n ∉ cols)).
Qed.

Lemma missing_cons n names cols :
  n ∉ cols → Frame.missing (n :: names) cols = n :: Frame.missing names cols.
Proof. intros H. unfold Frame.missing. rewrite filter_cons. by destruct (decide (n ∉ cols)). Qed.

Lemma index_of_Some name cols : name ∈ cols → is_Some (Frame.index_of name cols).
Proof.
  induction cols as [|c cols IH]; [by intros ?%elem_of_nil|]. simpl.
  destruct (decide (c = name)) as [|Hne]; [by eexists|].
  intros [->|H]%elem_of_cons; [done|]. destruct (IH H) as [i ->]. by eexists.
Qed.

Lemma index_of_None name cols : name ∉ cols → Frame.index_of name cols = None.
Proof.
  induction cols as [|c cols IH]; [done|]. simpl.
  intros [Hne H]%not_elem_of_cons. destruct (decide (c = name)) as [->|_]; [done|].
  by rewrite IH.
Qed.

Lemma zip_with_append_column {A} (f : A → list cell) (g : A → cell)
    (h : cell → cell) (l : list A) :
  zip_with (λ r v, r ++ [v]) (f <$> l) (map h (g <$> l)) =
  (λ x, f x ++ [h (g x)]) <$> l.
Proof.
  induction l as [|x l IH]; [done|]. simpl. f_equal. exact IH.
Qed.

(** The mapping table in closed form: one row per row of the table given,
    holding its identifier, its tier and the label looked up for the tier. *)
Lemma create_priority_mapping_run results_df tr :
  "selected_question_id" ∈ columns results_df →
  "selected_priority" ∈ columns results_df →
  let cell := Frame.cell_of (columns results_df) in
  let mapping :=
    {| columns := ["question_id"; "priority"; "priority_label"];
       rows := (λ r, [cell r "selected_question_id"; cell r "selected_priority";
                      Frame.map_value priority_labels (cell r "selected_priority")])
               <$> rows results_df |} in
  create_priority_mapping results_df tr =
  (Ok mapping,
   tr ++ [ToCsv "question_id_priority_mapping.csv" mapping; Stdout MappingCreated]).
Proof.
  intros H1 H2 cell mapping.
  set (pairs := (λ r, [cell r "selected_question_id"; cell r "selected_priority"])
                <$> rows results_df).
  assert (Frame.select ["selected_question_id"; "selected_priority"] results_df =
          Ok {| columns := ["selected_question_id"; "selected_priority"];
                rows := pairs |}) as Hsel.
  { unfold Frame.select. by rewrite missing_nil by (repeat constructor; done). }
  assert (Frame.column "priority"
            {| columns := ["question_id"; "priority"]; rows := pairs |} =
          Ok ((λ r, cell r "selected_priority") <$> rows results_df)) as Hcol.
  { unfold Frame.column. change (Frame.index_of _ _) with (Some 1%nat). cbv iota.
    cbn [rows columns]. unfold pairs. by rewrite map_fmap, <- list_fmap_compose. }
  unfold create_priority_mapping. rewrite Hsel.
  unfold mbind at 1, IO_bind at 1, lift at 1. cbv beta iota.
  change (Frame.rename _ _)
    with {| columns := ["question_id"; "priority"]; rows := pairs |}.
  unfold mbind, IO_bind, lift. rewrite Hcol.
  unfold Frame.assign. change (Frame.index_of _ _) with (@None nat). cbv iota.
  cbn [rows columns]. unfold Frame.map_dict, pairs.
  rewrite zip_with_append_column.
  unfold to_csv, print, emit, mret, IO_ret. by rewrite <- app_assoc.
Qed.

Lemma priority_labels_lookup t l :
  priority_labels !! t = Some l ↔ (t, l) ∈ label_table.
Proof.
  unfold priority_labels, label_table.
  rewrite !lookup_insert_Some, lookup_empty, !elem_of_cons, elem_of_nil.
  split.
  - intros [[<- <-]|[? [[<- <-]|[? [[<- <-]|[? [[<- <-]|[? ?]]]]]]]]; auto.
    done.
  - intros [[= -> ->]|[[= -> ->]|[[= -> ->]|[[= -> ->]|[]]]]]; auto 10.
Qed.

Lemma priority_labels_total t :
  1 ≤ t ≤ 4 → ∃ l, priority_labels !! t = Some l.
Proof.
  intros H.
  assert (t = 1 ∨ t = 2 ∨ t = 3 ∨ t = 4) as [-> | [-> | [-> | ->]]] by lia;
    by eexists.
Qed.

Lemma priority_labels_dom t l : priority_labels !! t = Some l → 1 ≤ t ≤ 4.
Proof.
  rewrite priority_labels_lookup. unfold label_table.
  rewrite !elem_of_cons, elem_of_nil.
  intros [[= -> _]|[[= -> _]|[[= -> _]|[[= -> _]|[]]]]]; lia.
Qed.

Lemma priority_labels_inj t1 t2 l :
  priority_labels !! t1 = Some l → priority_labels !! t2 = Some l → t1 = t2.
Proof.
  rewrite !priority_labels_lookup. unfold label_table.
  rewrite !elem_of_cons, !elem_of_nil.
  intros H1 H2. destruct_or!; simplify_eq; done.
Qed.

(** Claim C9: the label table relates the tiers 1 to 4 and the four label
    strings one to one, and the priority mapping has one row per row of the
    selection table, holding that row's identifier, its tier and the label
    of that tier. *)
Theorem priority_mapping_labels results_df tr :
  "selected_question_id" ∈ columns results_df →
  "selected_priority" ∈ columns results_df →
  (∀ t l, priority_labels !! t = Some l ↔
          (t, l) ∈ [(1, "JEE Advanced"); (2, "JEE Mains"); (3, "NCERT");
                    (4, "Plain/Other")]) ∧
  (∀ t, 1 ≤ t ≤ 4 ↔ ∃ l, priority_labels !! t = Some l) ∧
  (∀ t1 t2 l, priority_labels !! t1 = Some l →
              priority_labels !! t2 = Some l → t1 = t2) ∧
  (∀ l, l ∈ ["JEE Advanced"; "JEE Mains"; "NCERT"; "Plain/Other"] ↔
        ∃ t, priority_labels !! t = Some l) ∧
  ∃ mapping,
    create_priority_mapping results_df tr =
      (Ok mapping,
       tr ++ [ToCsv "question_id_priority_mapping.csv" mapping;
              Stdout MappingCreated]) ∧
    columns mapping = ["question_id"; "priority"; "priority_label"] ∧
    length (rows mapping) = length (rows results_df) ∧
    ∀ i r, rows results_df !! i = Some r →
      let id := Frame.cell_of (columns results_df) r "selected_question_id" in
      let tier := Frame.cell_of (columns results_df) r "selected_priority" in
      ∃ label,
        rows mapping !! i = Some [id; tier; label] ∧
        ∀ t, tier = Int t → 1 ≤ t ≤ 4 →
             ∃ l, priority_labels !! t = Some l ∧ label = Str l.
Proof.
  intros H1 H2. split; [apply priority_labels_lookup|]. split.
  { intros t. split; [apply priority_labels_total|].
    intros [l Hl]. by eapply priority_labels_dom. }
  split; [apply priority_labels_inj|]. split.
  { intros l. split.
    - rewrite !elem_of_cons, elem_of_nil.
      intros [-> | [-> | [-> | [-> | []]]]]; [by exists 1|by exists 2|by exists 3|by exists 4].
    - intros [t Ht]. apply priority_labels_lookup in Ht. unfold label_table in Ht.
      rewrite !elem_of_cons, elem_of_nil in Ht.
      destruct Ht as [[= _ ->]|[[= _ ->]|[[= _ ->]|[[= _ ->]|[]]]]]; set_solver. }
  eexists. split; [by apply create_priority_mapping_run|].
  split; [done|]. cbn [rows]. split; [by rewrite length_fmap|].
  intros i r Hr. eexists. split.
  - rewrite list_lookup_fmap, Hr. reflexivity.
  - intros t Ht Hrange. rewrite Ht. simpl.
    destruct (priority_labels_total t Hrange) as [l Hl]. rewrite Hl. eauto.
Qed.

Lemma priority_mapping_labels_witness :
  ∃ mapping,
    create_priority_mapping sample_selection [] =
      (Ok mapping,
       [] ++ [ToCsv "question_id_priority_mapping.csv" mapping;
              Stdout MappingCreated]) ∧
    rows mapping !! 0%nat =
      Some [Str "aaaaaaaaaaaaaaaaaaaaaaaa"; Int 1; Str "JEE Advanced"].
Proof.
  destruct (priority_mapping_labels sample_selection [])
    as (_ & _ & _ & _ & mapping & Hrun & _ & _ & Hrows);
    [by apply (bool_decide_unpack _)|by apply (bool_decide_unpack _)|].
  exists mapping. split; [exact Hrun|].
  destruct (Hrows 0%nat _ eq_refl) as (label & Hrow & Hlabel).
  destruct (Hlabel 1 eq_refl ltac:(lia)) as (l & Hl & ->).
  vm_compute in Hl. injection Hl as <-. exact Hrow.
Defined.

(** ** Batches without a resolvable pair, unsupported files *)

Lemma create_priority_mapping_empty tr :
  create_priority_mapping empty_frame tr =
  (Raise (KeyError ["selected_question_id"; "selected_priority"]), tr).
Proof. reflexivity. Qed.

(** Claim C7, as stated, fails: on a batch without a resolvable pair
    [process_duplicates] does not raise; it returns after writing a file. *)
Lemma unresolved_batch_does_not_raise :
  ¬ (∀ read_excel read_csv file_path tr df tr0,
       convert_xlsx_to_csv read_excel read_csv file_path tr = (Ok df, tr0) →
       collect_results df = Ok [] →
       ∃ e tr1,
         process_duplicates read_excel read_csv file_path tr = (Raise e, tr1) ∧
         written tr1 = written tr0).
Proof.
  intros H.
  destruct (H sample_reader sample_reader "unresolved.csv" [] sample_unresolved []
              eq_refl eq_refl) as (e & tr1 & Hrun & _).
  vm_compute in Hrun. discriminate.
Qed.

(** Claim C7, amended: on a batch in which no pair has an identifier on
    both sides, deduplication returns the empty table without columns as it
    is and raises nothing; [process_duplicates] writes that empty table to
    final_selection_questions.csv and returns it.  The exception comes
    next, from [create_priority_mapping], which does not find the columns
    it selects: the pipeline stops there, with that one file written and
    neither the mapping nor the report. *)
Theorem unresolved_batch_fails_in_mapping
    read_excel read_csv today file_path tr df tr0 :
  convert_xlsx_to_csv read_excel read_csv file_path tr = (Ok df, tr0) →
  collect_results df = Ok [] →
  let tr1 := tr0 ++ [Stdout (Loaded (Frame.len df));
                     ToCsv "final_selection_questions.csv" empty_frame;
                     Stdout (SelectionCreated 0)] in
  Frame.drop_duplicates ["selected_question_id"] (Frame.of_dicts []) = Ok empty_frame ∧
  process_duplicates read_excel read_csv file_path tr = (Ok empty_frame, tr1) ∧
  main read_excel read_csv today file_path tr =
    (Raise (KeyError ["selected_question_id"; "selected_priority"]), tr1) ∧
  written tr1 = written tr0 ++ [("final_selection_questions.csv", empty_frame)].
Proof.
  intros Hconv Hres tr1.
  assert (process_duplicates read_excel read_csv file_path tr = (Ok empty_frame, tr1))
    as Hrun.
  { rewrite process_duplicates_run, Hconv. cbv zeta. rewrite Hres.
    change (Frame.drop_duplicates _ _) with (Ok empty_frame).
    unfold tr1. by rewrite <- app_assoc. }
  split; [done|]. split; [done|]. split.
  - by rewrite main_run, Hrun, create_priority_mapping_empty.
  - unfold tr1, written. by rewrite omap_app.
Qed.

Lemma unresolved_batch_fails_in_mapping_witness :
  main sample_reader sample_reader "2025-01-15" "unresolved.csv" [] =
  (Raise (KeyError ["selected_question_id"; "selected_priority"]),
   [] ++ [Stdout (Loaded 2);
          ToCsv "final_selection_questions.csv" empty_frame;
          Stdout (SelectionCreated 0)]).
Proof.
  exact (proj1 (proj2 (proj2
    (unresolved_batch_fails_in_mapping sample_reader sample_reader "2025-01-15"
       "unresolved.csv" [] sample_unresolved [] eq_refl eq_refl)))).
Defined.

(** Claim C8: a path whose extension, in lower case, is neither .xlsx nor
    .csv makes the pipeline raise [ValueError] at once: the trace is left
    as it was, so nothing was loaded, printed or written before. *)
Theorem unsupported_extension_aborts read_excel read_csv today file_path tr :
  Str.lower (Path.splitext file_path).2 ≠ ".xlsx" →
  Str.lower (Path.splitext file_path).2 ≠ ".csv" →
  convert_xlsx_to_csv read_excel read_csv file_path tr =
    (Raise (ValueError "Unsupported file format!"), tr) ∧
  process_duplicates read_excel read_csv file_path tr =
    (Raise (ValueError "Unsupported file format!"), tr) ∧
  main read_excel read_csv today file_path tr =
    (Raise (ValueError "Unsupported file format!"), tr).
Proof.
  intros H1 H2.
  pose proof (convert_unsupported read_excel read_csv file_path tr H1 H2) as Hc.
  assert (process_duplicates read_excel read_csv file_path tr =
          (Raise (ValueError "Unsupported file format!"), tr)) as Hp
    by (by rewrite process_duplicates_run, Hc).
  split; [done|]. split; [done|]. by rewrite main_run, Hp.
Qed.

Lemma unsupported_extension_aborts_witness :
  main sample_reader sample_reader "2025-01-15" "reports/pairs.v2.json" [] =
  (Raise (ValueError "Unsupported file format!"), []).
Proof.
  apply (unsupported_extension_aborts sample_reader sample_reader "2025-01-15"
           "reports/pairs.v2.json" []); vm_compute; discriminate.
Defined.

(** * Further properties of the code *)

(** ** The decision for one pair *)

Lemma extract_some_hex q g : extract_question_id q = Some g → hex_id g.
Proof.
  intros (pre & suf & _ & label & seps & rest & _ & _ & _ & Hlen & Hhex)%extract_some_occurs.
  done.
Qed.

Lemma get_priority_range q : 1 ≤ get_priority q ≤ 4.
Proof.
  unfold get_priority. destruct (isna q); [lia|].
  repeat (destruct (_ : bool); [lia|]). lia.
Qed.

Lemma resolve_pair_some_extracted q1 q2 d :
  resolve_pair q1 q2 = Some d →
  ∃ id1 id2, extract_question_id q1 = Some id1 ∧ extract_question_id q2 = Some id2.
Proof.
  intros Hd.
  destruct (extract_question_id q1) as [id1|] eqn:H1;
    [|by rewrite resolve_pair_missing in Hd by auto].
  destruct (extract_question_id q2) as [id2|] eqn:H2;
    [|by rewrite resolve_pair_missing in Hd by auto].
  eauto.
Qed.

(** A pair is resolved exactly when an identifier is extracted on both
    sides: the truth-value test of the loop never discards an extracted
    identifier. *)
Theorem resolve_pair_resolved_iff q1 q2 :
  is_Some (resolve_pair q1 q2) ↔
  is_Some (extract_question_id q1) ∧ is_Some (extract_question_id q2).
Proof.
  split.
  - intros [d (id1 & id2 & H1 & H2)%resolve_pair_some_extracted].
    split; by eexists.
  - intros [[id1 H1] [id2 H2]]. rewrite (resolve_pair_both _ _ _ _ H1 H2).
    by eexists.
Qed.

(** Every selection holds two well-formed identifiers and two tiers
    between 1 and 4, the selected tier is never larger than the rejected
    one, and question_2 is chosen only when its tier is strictly smaller. *)
Theorem resolve_pair_invariant q1 q2 d :
  resolve_pair q1 q2 = Some d →
  ∃ sel rej sp rp chosen,
    d = [("selected_question_id", Str sel); ("rejected_question_id", Str rej);
         ("selected_priority", Int sp); ("rejected_priority", Int rp);
         ("chosen", Str chosen)] ∧
    hex_id sel ∧ hex_id rej ∧
    1 ≤ sp ∧ sp ≤ rp ∧ rp ≤ 4 ∧
    ((chosen = "question_1" ∧ extract_question_id q1 = Some sel ∧
      extract_question_id q2 = Some rej) ∨
     (chosen = "question_2" ∧ sp < rp ∧ extract_question_id q2 = Some sel ∧
      extract_question_id q1 = Some rej)).
Proof.
  intros Hd.
  destruct (resolve_pair_some_extracted _ _ _ Hd) as (id1 & id2 & H1 & H2).
  rewrite (resolve_pair_both _ _ _ _ H1 H2) in Hd.
  pose proof (get_priority_range q1). pose proof (get_priority_range q2).
  pose proof (extract_some_hex _ _ H1). pose proof (extract_some_hex _ _ H2).
  destruct (get_priority q1 <=? get_priority q2) eqn:Hle; injection Hd as <-.
  - apply Z.leb_le in Hle.
    exists id1, id2, (get_priority q1), (get_priority q2), "question_1".
    split; [done|]. split; [done|]. split; [done|].
    split; [lia|]. split; [lia|]. split; [lia|]. by left.
  - apply Z.leb_gt in Hle.
    exists id2, id1, (get_priority q2), (get_priority q1), "question_2".
    split; [done|]. split; [done|]. split; [done|].
    split; [lia|]. split; [lia|]. split; [lia|]. right.
    split; [done|]. split; [lia|]. done.
Qed.

Lemma resolve_pair_invariant_witness :
  ∃ sel rej sp rp chosen,
    [("selected_question_id", Str "bbbbbbbbbbbbbbbbbbbbbbbb");
     ("rejected_question_id", Str "aaaaaaaaaaaaaaaaaaaaaaaa");
     ("selected_priority", Int 2); ("rejected_priority", Int 3);
     ("chosen", Str "question_2")] =
    [("selected_question_id", Str sel); ("rejected_question_id", Str rej);
     ("selected_priority", Int sp); ("rejected_priority", Int rp);
     ("chosen", Str chosen)] ∧
    hex_id sel ∧ hex_id rej ∧ 1 ≤ sp ∧ sp ≤ rp ∧ rp ≤ 4.
Proof.
  destruct (resolve_pair_invariant
              (Str "Question ID: aaaaaaaaaaaaaaaaaaaaaaaa (NCERT)")
              (Str "Question ID: bbbbbbbbbbbbbbbbbbbbbbbb JEE Main 2021")
              _ eq_refl)
    as (sel & rej & sp & rp & chosen & Hd & Hs & Hr & H1 & H2 & H3 & _).
  exists sel, rej, sp, rp, chosen. done.
Defined.

(** ** Tiers *)

Lemma mentions_longer kw a b text :
  mentions (a +:+ kw +:+ b) text → mentions kw text.
Proof.
  intros (x & occ & y & -> & Hocc). unfold Str.lower in Hocc.
  apply map_app_inv in Hocc as (oa & o2 & -> & Ha & Hocc).
  apply map_app_inv in Hocc as (ok & ob & -> & Hk & Hb).
  exists (x +:+ oa), ok, (ob +:+ y). split; [|done].
  by rewrite !app_assoc_s.
Qed.

Lemma mentions_app_l kw a b : mentions kw a → mentions kw (a +:+ b).
Proof.
  intros (x & occ & y & -> & Hocc). exists x, occ, (y +:+ b).
  split; [|done]. by rewrite !app_assoc_s.
Qed.

Lemma mentions_app_r kw a b : mentions kw b → mentions kw (a +:+ b).
Proof.
  intros (x & occ & y & -> & Hocc). exists (a +:+ x), occ, y.
  split; [|done]. by rewrite !app_assoc_s.
Qed.

Lemma get_priority_text text :
  get_priority (Str text) =
  if existsb (λ p, Str.contains p (Str.lower text)) tier1_keywords then 1
  else if existsb (λ p, Str.contains p (Str.lower text)) tier2_keywords then 2
  else if Str.contains "ncert" (Str.lower text) then 3 else 4.
Proof. reflexivity. Qed.

Lemma tier1_iff text :
  existsb (λ p, Str.contains p (Str.lower text)) tier1_keywords = true ↔
  mentions "jee adv" text ∨ mentions "advanced" text.
Proof.
  rewrite any_keyword. unfold tier1_keywords. split.
  - intros (kw & Hkw & Hm). rewrite !elem_of_cons, elem_of_nil in Hkw.
    destruct Hkw as [-> | [-> | [-> | []]]]; auto.
    left. by apply (mentions_longer "jee adv" "" "anced").
  - intros [H|H]; eexists; (split; [|exact H]); set_solver.
Qed.

Lemma tier2_iff text :
  existsb (λ p, Str.contains p (Str.lower text)) tier2_keywords = true ↔
  mentions "jee main" text ∨ mentions "mains" text.
Proof.
  rewrite any_keyword. unfold tier2_keywords. split.
  - intros (kw & Hkw & Hm). rewrite !elem_of_cons, elem_of_nil in Hkw.
    destruct Hkw as [-> | [-> | [-> | []]]]; auto.
    left. by apply (mentions_longer "jee main" "" "s").
  - intros [H|H]; eexists; (split; [|exact H]); set_solver.
Qed.

Lemma get_priority_cases text :
  let t1 := mentions "jee adv" text ∨ mentions "advanced" text in
  let t2 := mentions "jee main" text ∨ mentions "mains" text in
  let t3 := mentions "ncert" text in
  (get_priority (Str text) = 1 ↔ t1) ∧
  (get_priority (Str text) = 2 ↔ ¬ t1 ∧ t2) ∧
  (get_priority (Str text) = 3 ↔ ¬ t1 ∧ ¬ t2 ∧ t3) ∧
  (get_priority (Str text) = 4 ↔ ¬ t1 ∧ ¬ t2 ∧ ¬ t3).
Proof.
  intros t1 t2 t3. rewrite get_priority_text.
  pose proof (tier1_iff text) as H1. pose proof (tier2_iff text) as H2.
  pose proof (contains_lower_mentions "ncert" text) as H3.
  fold t1 in H1. fold t2 in H2. fold t3 in H3.
  destruct (existsb _ tier1_keywords);
    [|destruct (existsb _ tier2_keywords);
      [|destruct (Str.contains "ncert" (Str.lower text))]];
    repeat split; intros; try done; try lia; intuition (try discriminate; try lia).
Qed.

(** Each tier is characterised by the keywords the text mentions; of the
    six keywords of tiers 1 and 2 four decide ("jee advanced" and
    "jee mains" contain a shorter keyword of their own group). *)
Theorem get_priority_characterised text :
  let t1 := mentions "jee adv" text ∨ mentions "advanced" text in
  let t2 := mentions "jee main" text ∨ mentions "mains" text in
  let t3 := mentions "ncert" text in
  (get_priority (Str text) = 1 ↔ t1) ∧
  (get_priority (Str text) = 2 ↔ ¬ t1 ∧ t2) ∧
  (get_priority (Str text) = 3 ↔ ¬ t1 ∧ ¬ t2 ∧ t3) ∧
  (get_priority (Str text) = 4 ↔ ¬ t1 ∧ ¬ t2 ∧ ¬ t3).
Proof. apply get_priority_cases. Qed.

(** Text added before or after a field can only make it more urgent. *)
Theorem get_priority_monotone before text after :
  get_priority (Str (before +:+ text +:+ after)) ≤ get_priority (Str text).
Proof.
  assert (∀ kw, mentions kw text → mentions kw (before +:+ text +:+ after)) as Hm
    by (intros kw H; by apply mentions_app_r, mentions_app_l).
  destruct (get_priority_cases text) as (A1 & A2 & A3 & A4).
  destruct (get_priority_cases (before +:+ text +:+ after))
    as (B1 & B2 & B3 & B4).
  pose proof (get_priority_range (Str text)) as Hr.
  pose proof (get_priority_range (Str (before +:+ text +:+ after))) as Hr'.
  cbv zeta in *.
  destruct (decide (get_priority (Str text) = 1)) as [E|].
  { apply A1 in E. assert (get_priority (Str (before +:+ text +:+ after)) = 1); [|lia].
    apply B1. destruct E; auto. }
  destruct (decide (get_priority (Str text) = 2)) as [E|].
  { apply A2 in E as [_ E].
    destruct (decide (get_priority (Str (before +:+ text +:+ after)) ≤ 2)); [lia|].
    assert (get_priority (Str (before +:+ text +:+ after)) = 3
            ∨ get_priority (Str (before +:+ text +:+ after)) = 4) as [F|F] by lia.
    - apply B3 in F as (_ & F & _). destruct F. destruct E; auto.
    - apply B4 in F as (_ & F & _). destruct F. destruct E; auto. }
  destruct (decide (get_priority (Str text) = 3)) as [E|]; [|lia].
  apply A3 in E as (_ & _ & E).
  destruct (decide (get_priority (Str (before +:+ text +:+ after)) ≤ 3)); [lia|].
  assert (get_priority (Str (before +:+ text +:+ after)) = 4) as F by lia.
  apply B4 in F as (_ & _ & F). destruct F. auto.
Qed.

(** ** [str.replace] and the path of the converted file *)






Section Conversion.
Variable read_excel : string → res DataFrame.
Variable read_csv : string → res DataFrame.
Variable today : string.

Lemma convert_csv file_path tr :
  Str.lower (Path.splitext file_path).2 = ".csv" →
  convert_xlsx_to_csv read_excel read_csv file_path tr = (read_csv file_path, tr).
Proof.
  intros H. unfold convert_xlsx_to_csv. rewrite H.
  destruct (decide _) as [|_]; [done|]. destruct (decide _) as [_|]; done.
Qed.

Lemma convert_xlsx file_path tr :
  Str.lower (Path.splitext file_path).2 = ".xlsx" →
  convert_xlsx_to_csv read_excel read_csv file_path tr =
  match read_excel file_path with
  | Ok df =>
      (Ok df,
       tr ++ [ToCsv (Str.replace ".xlsx" ".csv" file_path) df;
              Stdout (Converted file_path (Str.replace ".xlsx" ".csv" file_path))])
  | Raise e => (Raise e, tr)
  end.
Proof.
  intros H. unfold convert_xlsx_to_csv. rewrite H.
  destruct (decide _) as [_|]; [|done].
  unfold mbind, IO_bind, lift, to_csv, print, emit, mret, IO_ret.
  destruct (read_excel file_path) as [df|e]; [|done]. by rewrite <- app_assoc.
Qed.


End Conversion.


(** ** When the resolver succeeds and when it raises *)

Lemma index_of_lt name cols i :
  Frame.index_of name cols = Some i → (i < length cols)%nat.
Proof.
  revert i. induction cols as [|c cols IH]; intros i; [done|]. simpl.
  destruct (decide (c = name)); [intros [= <-]; lia|].
  destruct (Frame.index_of name cols) as [j|]; [|done].
  intros [= <-]. specialize (IH j eq_refl). lia.
Qed.

Lemma row_get_Some cols row name :
  name ∈ cols → length row = length cols →
  is_Some (Frame.row_get cols row name).
Proof.
  intros [i Hi]%index_of_Some Hlen. unfold Frame.row_get. rewrite Hi. simpl.
  apply lookup_lt_is_Some. apply index_of_lt in Hi. lia.
Qed.

Lemma row_get_None cols row name :
  name ∉ cols → Frame.row_get cols row name = None.
Proof. intros H. unfold Frame.row_get. by rewrite index_of_None. Qed.

Lemma collect_results_total df :
  "question_1" ∈ columns df → "question_2" ∈ columns df → well_formed df →
  collect_results df = Ok (omap (row_selection (columns df)) (rows df)).
Proof.
  intros H1 H2 Hwf. unfold collect_results.
  rewrite foldl_process_total; [done|].
  eapply Forall_impl; [exact Hwf|]. intros row Hlen. simpl in Hlen.
  split; by apply row_get_Some.
Qed.

Lemma keep_first_length_le {A K} `{EqDecision K} (key : A → K) seen l :
  (length (Frame.keep_first key seen l) ≤ length l)%nat.
Proof. apply sublist_length, keep_first_sublist. Qed.

Lemma length_omap_le {A B} (f : A → option B) l :
  (length (omap f l) ≤ length l)%nat.
Proof.
  induction l as [|x l IH]; [done|]. simpl.
  change (list_omap A B f l) with (omap f l). destruct (f x); simpl; lia.
Qed.

Lemma keep_first_elem_of {A K} `{EqDecision K} (key : A → K) l k :
  k ∈ key <$> Frame.keep_first key [] l ↔ k ∈ key <$> l.
Proof.
  split.
  - intros (x & -> & Hx)%list_elem_of_fmap. apply list_elem_of_fmap_2.
    eapply elem_of_sublist; [exact Hx|apply keep_first_sublist].
  - intros (x & -> & Hx)%list_elem_of_fmap.
    destruct (keep_first_covers key [] l x Hx) as (x0 & Hx0 & <-);
      [apply not_elem_of_nil|].
    by apply list_elem_of_fmap_2.
Qed.

(** As many elements are kept as there are distinct keys. *)
Lemma keep_first_length_distinct {A K} `{EqDecision K} (key : A → K) l :
  length (Frame.keep_first key [] l) = length (remove_dups (key <$> l)).
Proof.
  rewrite <- (length_fmap key). apply Permutation_length, NoDup_Permutation.
  - apply keep_first_NoDup.
  - apply NoDup_remove_dups.
  - intros k. by rewrite keep_first_elem_of, elem_of_remove_dups.
Qed.

Lemma selections_well_formed (results kept : list dict) :
  sublist kept results → Forall is_selection results →
  well_formed {| columns := match results with [] => [] | _ => selection_columns end;
                 rows := values <$> kept |}.
Proof.
  intros Hsub H. unfold well_formed. cbn [rows columns].
  apply Forall_fmap, Forall_forall. intros d Hd.
  pose proof (elem_of_sublist _ _ _ Hd Hsub) as Hin.
  rewrite Forall_forall in H. destruct (H d Hin) as (sel & rej & sp & rp & ch & ->).
  destruct results; [by apply elem_of_nil in Hin|done].
Qed.

(** On a well-formed input table that holds the two question columns the
    resolver cannot raise: it prints the number of pairs, writes the
    selection file and reports its size.  The table returned is well
    formed and has one row per distinct selected identifier, so never
    more rows than there were pairs. *)
Theorem process_duplicates_succeeds read_excel read_csv file_path tr df tr0 :
  convert_xlsx_to_csv read_excel read_csv file_path tr = (Ok df, tr0) →
  "question_1" ∈ columns df → "question_2" ∈ columns df → well_formed df →
  ∃ out,
    process_duplicates read_excel read_csv file_path tr =
      (Ok out,
       tr0 ++ [Stdout (Loaded (Frame.len df));
               ToCsv "final_selection_questions.csv" out;
               Stdout (SelectionCreated (Frame.len out))]) ∧
    well_formed out ∧
    Frame.len out =
      length (remove_dups
                (selected_id <$> omap (row_selection (columns df)) (rows df))) ∧
    (Frame.len out ≤ Frame.len df)%nat.
Proof.
  intros Hconv H1 H2 Hwf. eexists. split.
  - rewrite process_duplicates_run, Hconv. cbv zeta.
    rewrite (collect_results_total df H1 H2 Hwf).
    rewrite drop_duplicates_selections by apply omap_selection_shape.
    by rewrite <- app_assoc.
  - split; [|split].
    + apply selections_well_formed;
        [apply keep_first_sublist|apply omap_selection_shape].
    + unfold Frame.len. cbn [rows]. rewrite length_fmap.
      apply keep_first_length_distinct.
    + unfold Frame.len. cbn [rows]. rewrite length_fmap.
      etrans; [apply keep_first_length_le|apply length_omap_le].
Qed.

Lemma process_duplicates_succeeds_witness :
  ∃ out,
    process_duplicates sample_reader sample_reader "pairs.csv" [] =
      (Ok out,
       [] ++ [Stdout (Loaded (Frame.len sample_pairs));
              ToCsv "final_selection_questions.csv" out;
              Stdout (SelectionCreated (Frame.len out))]) ∧
    (Frame.len out ≤ 5)%nat.
Proof.
  destruct (process_duplicates_succeeds sample_reader sample_reader "pairs.csv"
              [] sample_pairs [] eq_refl) as (out & Hrun & _ & _ & Hle).
  - by apply (bool_decide_unpack _).
  - by apply (bool_decide_unpack _).
  - repeat constructor.
  - exists out. split; [exact Hrun|exact Hle].
Defined.

Lemma collect_results_first_raises cols row rest e :
  process_row cols [] row = Raise e →
  collect_results {| columns := cols; rows := row :: rest |} = Raise e.
Proof. intros H. unfold collect_results. simpl. rewrite H. apply foldl_raise. Qed.

(** A table with at least one row that lacks a question column makes the
    resolver raise [KeyError] for that column at the first row, question_1
    being looked up first; by then only the number of pairs was printed
    and no file of the resolver was written. *)
Theorem process_duplicates_missing_column read_excel read_csv file_path tr df tr0 :
  convert_xlsx_to_csv read_excel read_csv file_path tr = (Ok df, tr0) →
  rows df ≠ [] →
  ("question_1" ∉ columns df →
   process_duplicates read_excel read_csv file_path tr =
     (Raise (KeyError ["question_1"]), tr0 ++ [Stdout (Loaded (Frame.len df))])) ∧
  ("question_1" ∈ columns df → well_formed df → "question_2" ∉ columns df →
   process_duplicates read_excel read_csv file_path tr =
     (Raise (KeyError ["question_2"]), tr0 ++ [Stdout (Loaded (Frame.len df))])).
Proof.
  intros Hconv Hrows. destruct df as [cols [|row rest]]; [done|].
  split.
  - intros H1. rewrite process_duplicates_run, Hconv. cbv zeta.
    rewrite (collect_results_first_raises cols row rest (KeyError ["question_1"]));
      [done|].
    unfold process_row, Frame.row_item. by rewrite (row_get_None cols row "question_1") by exact H1.
  - intros H1 Hwf H2. rewrite process_duplicates_run, Hconv. cbv zeta.
    rewrite (collect_results_first_raises cols row rest (KeyError ["question_2"]));
      [done|].
    unfold process_row, Frame.row_item.
    apply Forall_cons in Hwf as [Hlen _].
    destruct (row_get_Some cols row "question_1" H1 Hlen) as [q1 ->].
    by rewrite (row_get_None cols row "question_2") by exact H2.
Qed.

Lemma process_duplicates_missing_column_witness :
  process_duplicates
    (λ _, Raise (ReadError "not a spreadsheet"))
    (λ _, Ok {| columns := ["question_1"; "Question_2"];
                rows := [[Str "Question ID: aaaaaaaaaaaaaaaaaaaaaaaa"; NA]] |})
    "pairs.csv" [] =
  (Raise (KeyError ["question_2"]), [] ++ [Stdout (Loaded 1)]).
Proof.
  apply (process_duplicates_missing_column
           (λ _, Raise (ReadError "not a spreadsheet"))
           (λ _, Ok {| columns := ["question_1"; "Question_2"];
                       rows := [[Str "Question ID: aaaaaaaaaaaaaaaaaaaaaaaa"; NA]] |})
           "pairs.csv" [] _ [] eq_refl).
  - done.
  - by apply (bool_decide_unpack _).
  - repeat constructor.
  - by apply (bool_decide_unpack _).
Defined.

(** A source file the reader cannot parse aborts the pipeline with the
    reader's exception, before anything is printed or written. *)
Theorem read_failure_aborts read_excel read_csv today file_path tr e :
  (Str.lower (Path.splitext file_path).2 = ".csv" →
   read_csv file_path = Raise e →
   main read_excel read_csv today file_path tr = (Raise e, tr)) ∧
  (Str.lower (Path.splitext file_path).2 = ".xlsx" →
   read_excel file_path = Raise e →
   main read_excel read_csv today file_path tr = (Raise e, tr)).
Proof.
  split; intros Hext Hread; rewrite main_run, process_duplicates_run.
  - by rewrite convert_csv, Hread.
  - by rewrite convert_xlsx, Hread.
Qed.

Lemma read_failure_aborts_witness :
  main sample_reader sample_reader "2025-01-15" "missing.csv" [] =
  (Raise (ReadError "No such file or directory"), []).
Proof.
  apply (proj1 (read_failure_aborts sample_reader sample_reader "2025-01-15"
                  "missing.csv" [] (ReadError "No such file or directory")));
    reflexivity.
Defined.

(** ** The distribution: [value_counts] then [sort_index] *)

Lemma insert_sorted_perm {A} (x : cell * A) l :
  Frame.insert_sorted x l ≡ₚ x :: l.
Proof.
  induction l as [|y l IH]; [done|]. simpl.
  destruct (Frame.label_le x.1 y.1); [done|].
  rewrite IH. apply Permutation_swap.
Qed.

Lemma sort_perm {A} (s : list (cell * A)) :
  foldr Frame.insert_sorted [] s ≡ₚ s.
Proof.
  induction s as [|x s IH]; [done|]. simpl.
  by rewrite insert_sorted_perm, IH.
Qed.

Lemma insert_sorted_sorted {A} (x : cell * A) l :
  Frame.is_int x.1 = true → Forall (λ y, Frame.is_int y.1 = true) l →
  StronglySorted (λ a b, tier_of a.1 ≤ tier_of b.1) l →
  StronglySorted (λ a b, tier_of a.1 ≤ tier_of b.1) (Frame.insert_sorted x l).
Proof.
  intros Hx Hl Hs. induction Hs as [|y l Hs IH Hy]; simpl.
  - repeat constructor.
  - apply Forall_cons in Hl as [Hyi Hl].
    destruct x as [[| |a] xa], y as [[| |b] ya]; try done. simpl in *.
    destruct (a <=? b) eqn:Hab.
    + apply Z.leb_le in Hab. constructor; [by constructor|].
      constructor; [done|]. eapply Forall_impl; [exact Hy|].
      intros z Hz. simpl in *. lia.
    + apply Z.leb_gt in Hab. constructor; [by apply IH|].
      rewrite insert_sorted_perm. constructor; [simpl; lia|done].
Qed.

Lemma sort_sorted {A} (s : list (cell * A)) :
  Forall (λ y, Frame.is_int y.1 = true) s →
  StronglySorted (λ a b, tier_of a.1 ≤ tier_of b.1)
    (foldr Frame.insert_sorted [] s).
Proof.
  induction 1 as [|x s Hx Hs IH]; simpl; [constructor|].
  apply insert_sorted_sorted; [done| |done].
  by rewrite sort_perm.
Qed.

Lemma sorted_strict {A} (l : list (cell * A)) :
  Forall (λ y, Frame.is_int y.1 = true) l → NoDup (l.*1) →
  StronglySorted (λ a b, tier_of a.1 ≤ tier_of b.1) l →
  StronglySorted (λ a b, tier_of a.1 < tier_of b.1) l.
Proof.
  intros Hint Hnd Hs. induction Hs as [|x l Hs IH Hx]; [constructor|].
  apply Forall_cons in Hint as [Hxi Hint].
  rewrite fmap_cons in Hnd. apply NoDup_cons in Hnd as [Hxn Hnd].
  constructor; [by apply IH|].
  rewrite Forall_forall in Hx, Hint |- *. intros y Hy.
  specialize (Hx y Hy). specialize (Hint y Hy).
  destruct (decide (tier_of x.1 = tier_of y.1)) as [Heq|]; [|lia].
  destruct Hxn. destruct x as [[| |a] xa], y as [[| |b] ya]; try done.
  simpl in Heq. subst b. simpl. apply list_elem_of_fmap.
  by exists (Int a, ya).
Qed.

Lemma sort_index_ints {A} (s : list (cell * A)) :
  Forall (λ y, Frame.is_int y.1 = true) s →
  Frame.sort_index s = Ok (foldr Frame.insert_sorted [] s).
Proof.
  intros H. unfold Frame.sort_index.
  assert (forallb (λ kv, Frame.is_int kv.1) s = true) as ->; [|done].
  apply forallb_forall. intros x Hx. rewrite Forall_forall in H.
  by apply H, list_elem_of_In.
Qed.

Lemma filter_present vals :
  Forall (λ v, Frame.is_int v = true) vals → filter (λ v, v ≠ NA) vals = vals.
Proof.
  induction 1 as [|v vals Hv _ IH]; [done|].
  rewrite filter_cons. destruct (decide (v ≠ NA)) as [_|Hna]; [by rewrite IH|].
  destruct Hna. by destruct v.
Qed.

Lemma value_counts_ints vals :
  Forall (λ v, Frame.is_int v = true) vals →
  Frame.value_counts vals =
  (λ v, (v, occurrences v vals)) <$> Frame.keep_first id [] vals.
Proof. intros H. unfold Frame.value_counts. by rewrite (filter_present _ H). Qed.

Lemma occurrences_cons_ne v x l : x ≠ v → occurrences v (x :: l) = occurrences v l.
Proof. intros H. unfold occurrences. rewrite filter_cons. by destruct (decide (x = v)). Qed.

Lemma occurrences_cons_eq v l : occurrences v (v :: l) = S (occurrences v l).
Proof. unfold occurrences. rewrite filter_cons. by destruct (decide (v = v)). Qed.

Lemma occurrences_sum_fresh x l (ks : list cell) :
  x ∉ ks →
  sum_list ((λ k, occurrences k (x :: l)) <$> ks) =
  sum_list ((λ k, occurrences k l) <$> ks).
Proof.
  induction ks as [|k ks IH]; [done|]. intros [Hne Hx]%not_elem_of_cons.
  rewrite !fmap_cons. simpl. by rewrite occurrences_cons_ne, IH.
Qed.

(** The occurrences of the members of a duplicate-free list that covers
    [l] add up to the length of [l]. *)
Lemma occurrences_sum (ks l : list cell) :
  NoDup ks → (∀ v, v ∈ l → v ∈ ks) →
  sum_list ((λ k, occurrences k l) <$> ks) = length l.
Proof.
  intros Hnd. induction l as [|x l IH]; intros Hcov.
  - clear. induction ks as [|k ks IHk]; [done|]. rewrite fmap_cons. simpl.
    by rewrite IHk.
  - assert (sum_list ((λ k, occurrences k (x :: l)) <$> ks) =
            S (sum_list ((λ k, occurrences k l) <$> ks))) as ->.
    { assert (x ∈ ks) as Hx by (apply Hcov; by left).
      clear IH Hcov. induction ks as [|k ks IHk]; [by apply elem_of_nil in Hx|].
      apply NoDup_cons in Hnd as [Hk Hnd]. rewrite !fmap_cons. simpl.
      destruct (decide (x = k)) as [->|Hne].
      - by rewrite occurrences_cons_eq, occurrences_sum_fresh.
      - rewrite occurrences_cons_ne by done.
        apply elem_of_cons in Hx as [?|Hx]; [done|].
        rewrite (IHk Hnd Hx). lia. }
    simpl. f_equal. apply IH. intros v Hv. apply Hcov. by right.
Qed.

Lemma keep_first_id_elem_of (l : list cell) v :
  v ∈ Frame.keep_first id [] l ↔ v ∈ l.
Proof.
  pose proof (keep_first_elem_of (@id cell) l v) as H.
  by rewrite !list_fmap_id in H.
Qed.

Lemma keep_first_id_NoDup (l : list cell) : NoDup (Frame.keep_first id [] l).
Proof.
  pose proof (keep_first_NoDup (@id cell) [] l) as H.
  by rewrite list_fmap_id in H.
Qed.

Lemma value_counts_facts vals :
  Forall (λ v, Frame.is_int v = true) vals →
  let dist := foldr Frame.insert_sorted [] (Frame.value_counts vals) in
  Frame.sort_index (Frame.value_counts vals) = Ok dist ∧
  Forall (λ y, Frame.is_int y.1 = true) dist ∧
  StronglySorted (λ a b, tier_of a.1 < tier_of b.1) dist ∧
  (∀ v c, (v, c) ∈ dist ↔ v ∈ vals ∧ c = occurrences v vals) ∧
  sum_list (dist.*2) = length vals.
Proof.
  intros Hint dist.
  assert (Forall (λ y : cell * nat, Frame.is_int y.1 = true)
            (Frame.value_counts vals)) as Hvc.
  { rewrite (value_counts_ints _ Hint). apply Forall_fmap, Forall_forall.
    intros v Hv. rewrite keep_first_id_elem_of in Hv. simpl.
    rewrite Forall_forall in Hint. by apply Hint. }
  assert (dist ≡ₚ Frame.value_counts vals) as Hperm by apply sort_perm.
  assert (Forall (λ y : cell * nat, Frame.is_int y.1 = true) dist) as Hd
    by (by rewrite Hperm).
  split; [by apply sort_index_ints|]. split; [done|]. split; [|split].
  - apply sorted_strict; [done| |by apply sort_sorted].
    rewrite Hperm, (value_counts_ints _ Hint), <- list_fmap_compose.
    rewrite (list_fmap_ext _ id (Frame.keep_first id [] vals)) by done.
    rewrite list_fmap_id. apply keep_first_id_NoDup.
  - intros v c. rewrite Hperm, (value_counts_ints _ Hint), list_elem_of_fmap.
    split.
    + intros (k & [= -> ->] & Hk). by rewrite keep_first_id_elem_of in Hk.
    + intros [Hv ->]. exists v. split; [done|]. by apply keep_first_id_elem_of.
  - rewrite Hperm, (value_counts_ints _ Hint), <- list_fmap_compose.
    rewrite (list_fmap_ext _ (λ k, occurrences k vals)
               (Frame.keep_first id [] vals)) by done.
    apply occurrences_sum; [apply keep_first_id_NoDup|].
    intros v. by rewrite keep_first_id_elem_of.
Qed.

(** The distribution of a column of tiers lists every tier that occurs
    once, in strictly ascending order, with the number of rows that hold
    it, and these counts add up to the number of rows. *)
Theorem distribution_sorted_counts vals :
  Forall (λ v, Frame.is_int v = true) vals →
  ∃ dist,
    Frame.sort_index (Frame.value_counts vals) = Ok dist ∧
    StronglySorted (λ a b, tier_of a.1 < tier_of b.1) dist ∧
    (∀ v c, (v, c) ∈ dist ↔ v ∈ vals ∧ c = occurrences v vals) ∧
    sum_list (dist.*2) = length vals.
Proof.
  intros H. destruct (value_counts_facts vals H) as (H1 & _ & H2 & H3 & H4).
  eauto.
Qed.

Lemma distribution_sorted_counts_witness :
  ∃ dist,
    Frame.sort_index (Frame.value_counts [Int 3; Int 1; Int 3; Int 2; Int 1; Int 3])
      = Ok dist ∧
    sum_list (dist.*2) = 6%nat.
Proof.
  destruct (distribution_sorted_counts [Int 3; Int 1; Int 3; Int 2; Int 1; Int 3])
    as (dist & Hd & _ & _ & Hsum); [by repeat constructor|].
  exists dist. split; [exact Hd|exact Hsum].
Defined.

(** ** [validate_and_report] and the whole pipeline *)

Lemma print_distribution_run dist tr :
  Forall (λ pc, is_tier pc.1) dist →
  print_distribution dist tr = (Ok tt, tr ++ distribution_lines dist).
Proof.
  intros H. revert tr. induction H as [|[p c] dist (t & Hp & Ht) _ IH]; intros tr.
  - unfold distribution_lines. simpl. by rewrite app_nil_r.
  - simpl in Hp. subst p. cbn [print_distribution].
    destruct (priority_labels_total t Ht) as [l Hl]. rewrite Hl.
    unfold mbind, IO_bind, lift, print, emit. rewrite IH.
    unfold distribution_lines. rewrite fmap_cons, <- app_assoc. simpl.
    unfold tier_label. simpl. by rewrite Hl.
Qed.

Lemma zip_with_append_scalar (l : list (list cell)) v :
  zip_with (λ r w, r ++ [w]) l (replicate (length l) v) = (λ r, r ++ [v]) <$> l.
Proof. induction l as [|r l IH]; [done|]. simpl. f_equal. exact IH. Qed.

Lemma index_of_app_None name cols extra :
  name ∉ cols → name ∉ extra → Frame.index_of name (cols ++ extra) = None.
Proof. intros H1 H2. apply index_of_None. rewrite elem_of_app. by intros [?|?]. Qed.

Lemma written_app tr1 tr2 : written (tr1 ++ tr2) = written tr1 ++ written tr2.
Proof. apply omap_app. Qed.

Lemma written_distribution_lines dist : written (distribution_lines dist) = [].
Proof. induction dist as [|pc dist IH]; [done|]. exact IH. Qed.

Lemma zip_with_append_values (g : list cell → cell) (h : cell → cell)
    (l : list (list cell)) :
  zip_with (λ r v, r ++ [v]) l (map h (g <$> l)) = (λ r, r ++ [h (g r)]) <$> l.
Proof. induction l as [|x l IH]; [done|]. simpl. f_equal. exact IH. Qed.

Lemma assign_new name vals df :
  name ∉ columns df →
  Frame.assign name vals df =
  {| columns := columns df ++ [name];
     rows := zip_with (λ r v, r ++ [v]) (rows df) vals |}.
Proof. intros H. unfold Frame.assign. by rewrite index_of_None. Qed.

(** The consolidated report in closed form, on a table whose tiers are
    between 1 and 4 and that has no label or date column yet. *)
Lemma validate_and_report_run today df tr :
  "selected_priority" ∈ columns df →
  "priority_label" ∉ columns df →
  "processing_date" ∉ columns df →
  Forall (λ r, is_tier (Frame.cell_of (columns df) r "selected_priority")) (rows df) →
  let tier := λ r, Frame.cell_of (columns df) r "selected_priority" in
  let dist := foldr Frame.insert_sorted [] (Frame.value_counts (tier <$> rows df)) in
  let consolidated :=
    {| columns := columns df ++ ["priority_label"; "processing_date"];
       rows := (λ r, r ++ [Frame.map_value priority_labels (tier r); Str today])
               <$> rows df |} in
  validate_and_report today df tr =
  (Ok consolidated,
   tr ++ [Stdout ValidationTitle; Stdout ValidationRule; Stdout DistributionTitle]
      ++ distribution_lines dist
      ++ [ToCsv "final_consolidated_question_report.csv" consolidated;
          Stdout ReportCreated]).
Proof.
  intros Hsp Hpl Hpd Htiers tier dist consolidated.
  assert (Frame.column "selected_priority" df = Ok (tier <$> rows df)) as Hcol.
  { unfold Frame.column. by destruct (index_of_Some _ _ Hsp) as [i ->]. }
  assert (Forall (λ v, Frame.is_int v = true) (tier <$> rows df)) as Hint.
  { apply Forall_fmap. eapply Forall_impl; [exact Htiers|].
    intros r (t & Ht & _). unfold compose, tier. by rewrite Ht. }
  destruct (value_counts_facts _ Hint) as (Hsort & _ & _ & Hmem & _).
  fold dist in Hsort, Hmem.
  assert (Forall (λ pc : cell * nat, is_tier pc.1) dist) as Hdist.
  { apply Forall_forall. intros [v c] Hvc. apply Hmem in Hvc as [Hv _].
    apply list_elem_of_fmap in Hv as (r & -> & Hr).
    rewrite Forall_forall in Htiers. by apply Htiers. }
  unfold validate_and_report, mbind, IO_bind, lift, print, to_csv, emit, mret, IO_ret.
  rewrite Hcol, Hsort, (print_distribution_run _ _ Hdist).
  rewrite (assign_new "priority_label") by done.
  unfold Frame.assign_scalar, Frame.len.
  rewrite (assign_new "processing_date")
    by (cbn [columns]; rewrite elem_of_app; intros [?|?%list_elem_of_singleton]; done).
  cbn [rows columns].
  unfold Frame.map_dict. rewrite zip_with_append_values.
  rewrite zip_with_append_scalar, <- list_fmap_compose.
  match goal with
  | |- (Ok ?x, _) = _ => assert (x = consolidated) as ->
  end.
  { unfold consolidated. f_equal; [by rewrite <- app_assoc|].
    apply list_fmap_ext. intros i r _. simpl. by rewrite <- app_assoc. }
  by rewrite <- !app_assoc.
Qed.

(** The consolidated report copies every row of the table it is given and
    appends the label of the row's tier and the processing date; what is
    printed on the way writes no file. *)
Theorem validate_and_report_extends_rows today df tr :
  "selected_priority" ∈ columns df →
  "priority_label" ∉ columns df →
  "processing_date" ∉ columns df →
  Forall (λ r, is_tier (Frame.cell_of (columns df) r "selected_priority")) (rows df) →
  ∃ consolidated lines,
    validate_and_report today df tr =
      (Ok consolidated,
       tr ++ [Stdout ValidationTitle; Stdout ValidationRule; Stdout DistributionTitle]
          ++ lines
          ++ [ToCsv "final_consolidated_question_report.csv" consolidated;
              Stdout ReportCreated]) ∧
    written lines = [] ∧
    columns consolidated = columns df ++ ["priority_label"; "processing_date"] ∧
    length (rows consolidated) = length (rows df) ∧
    ∀ i r, rows df !! i = Some r →
      ∃ t l, Frame.cell_of (columns df) r "selected_priority" = Int t ∧
             priority_labels !! t = Some l ∧
             rows consolidated !! i = Some (r ++ [Str l; Str today]).
Proof.
  intros Hsp Hpl Hpd Htiers. eexists _, _. split.
  { by apply validate_and_report_run. }
  split; [apply written_distribution_lines|]. split; [done|].
  cbn [rows]. split; [by rewrite length_fmap|].
  intros i r Hr. rewrite Forall_forall in Htiers.
  destruct (Htiers r) as (t & Ht & Hrange); [by eapply list_elem_of_lookup_2|].
  destruct (priority_labels_total t Hrange) as [l Hl].
  exists t, l. split; [done|]. split; [done|].
  rewrite list_lookup_fmap, Hr. simpl. by rewrite Ht; simpl; rewrite Hl.
Qed.

Lemma validate_and_report_extends_rows_witness :
  ∃ consolidated,
    rows consolidated !! 1%nat =
      Some ([Str "cccccccccccccccccccccccc"; Str "dddddddddddddddddddddddd";
             Int 2; Int 2; Str "question_1"] ++ [Str "JEE Mains"; Str "2025-01-15"]).
Proof.
  destruct (validate_and_report_extends_rows "2025-01-15" sample_selection [])
    as (consolidated & lines & _ & _ & _ & _ & Hrows).
  - by apply (bool_decide_unpack _).
  - by apply (bool_decide_unpack _).
  - by apply (bool_decide_unpack _).
  - repeat constructor; [by exists 1|by exists 2].
  - exists consolidated.
    destruct (Hrows 1%nat _ eq_refl) as (t & l & Ht & Hl & Hrow).
    injection Ht as <-. vm_compute in Hl. injection Hl as <-. exact Hrow.
Defined.

Lemma resolve_pair_tier q1 q2 d :
  resolve_pair q1 q2 = Some d →
  is_selection d ∧
  is_tier (Frame.cell_of selection_columns (values d) "selected_priority").
Proof.
  intros Hd.
  destruct (resolve_pair_some_extracted _ _ _ Hd) as (id1 & id2 & H1 & H2).
  rewrite (resolve_pair_both _ _ _ _ H1 H2) in Hd.
  pose proof (get_priority_range q1). pose proof (get_priority_range q2).
  destruct (_ <=? _); injection Hd as <-.
  - split; [by repeat eexists|]. by exists (get_priority q1).
  - split; [by repeat eexists|]. by exists (get_priority q2).
Qed.

Lemma row_selection_tier cols row d :
  row_selection cols row = Some d →
  is_tier (Frame.cell_of selection_columns (values d) "selected_priority").
Proof.
  unfold row_selection.
  destruct (Frame.row_get cols row "question_1") as [q1|]; [|done].
  destruct (Frame.row_get cols row "question_2") as [q2|]; [|done]. simpl.
  by intros [_ ?]%resolve_pair_tier.
Qed.

(** On a well-formed input table with the two question columns and at
    least one resolvable pair the pipeline runs to completion: it writes,
    in this order, the selection, the mapping and the consolidated report,
    each with its exact columns and with one row per selection, and ends
    with the completion message. *)
Theorem main_succeeds read_excel read_csv today file_path tr df tr0 :
  convert_xlsx_to_csv read_excel read_csv file_path tr = (Ok df, tr0) →
  "question_1" ∈ columns df → "question_2" ∈ columns df → well_formed df →
  omap (row_selection (columns df)) (rows df) ≠ [] →
  ∃ selections mapping report tr',
    main read_excel read_csv today file_path tr = (Ok tt, tr' ++ [Stdout Completed]) ∧
    written tr' =
      written tr0 ++ [("final_selection_questions.csv", selections);
                      ("question_id_priority_mapping.csv", mapping);
                      ("final_consolidated_question_report.csv", report)] ∧
    columns selections =
      ["selected_question_id"; "rejected_question_id"; "selected_priority";
       "rejected_priority"; "chosen"] ∧
    columns mapping = ["question_id"; "priority"; "priority_label"] ∧
    columns report =
      ["selected_question_id"; "rejected_question_id"; "selected_priority";
       "rejected_priority"; "chosen"; "priority_label"; "processing_date"] ∧
    length (rows mapping) = length (rows selections) ∧
    length (rows report) = length (rows selections).
Proof.
  intros Hconv H1 H2 Hwf Hne.
  set (results := omap (row_selection (columns df)) (rows df)) in *.
  set (kept := Frame.keep_first selected_id [] results).
  set (out := {| columns := selection_columns; rows := values <$> kept |}).
  assert (process_duplicates read_excel read_csv file_path tr =
          (Ok out, tr0 ++ [Stdout (Loaded (Frame.len df));
                           ToCsv "final_selection_questions.csv" out;
                           Stdout (SelectionCreated (Frame.len out))])) as Hrun.
  { rewrite process_duplicates_run, Hconv. cbv zeta.
    rewrite (collect_results_total df H1 H2 Hwf). fold results.
    rewrite drop_duplicates_selections by apply omap_selection_shape.
    fold kept. destruct results; [done|]. by rewrite <- app_assoc. }
  assert (Forall (λ r, is_tier (Frame.cell_of (columns out) r "selected_priority"))
            (rows out)) as Htiers.
  { cbn [rows columns out]. apply Forall_fmap, Forall_forall. intros d Hd.
    assert (d ∈ results) as Hin
      by (eapply elem_of_sublist; [exact Hd|apply keep_first_sublist]).
    apply list_elem_of_omap in Hin as (row & _ & Hrow).
    by eapply row_selection_tier. }
  rewrite main_run, Hrun.
  rewrite (create_priority_mapping_run out) by (by apply (bool_decide_unpack _)).
  cbv zeta.
  rewrite (validate_and_report_run today out)
    by (done || by apply (bool_decide_unpack _)).
  cbv zeta. eexists out, _, _, _. split; [reflexivity|].
  split.
  { rewrite !written_app, written_distribution_lines. simpl.
    rewrite <- !app_assoc. reflexivity. }
  split; [done|]. split; [done|]. split; [done|].
  unfold out. cbn [rows]. by rewrite !length_fmap.
Qed.

Lemma main_succeeds_witness :
  ∃ selections mapping report tr',
    main sample_reader sample_reader "2025-01-15" "pairs.csv" [] =
      (Ok tt, tr' ++ [Stdout Completed]) ∧
    written tr' =
      written [] ++ [("final_selection_questions.csv", selections);
                     ("question_id_priority_mapping.csv", mapping);
                     ("final_consolidated_question_report.csv", report)].
Proof.
  destruct (main_succeeds sample_reader sample_reader "2025-01-15" "pairs.csv"
              [] sample_pairs [] eq_refl)
    as (selections & mapping & report & tr' & Hrun & Hw & _).
  - by apply (bool_decide_unpack _).
  - by apply (bool_decide_unpack _).
  - repeat constructor.
  - vm_compute. discriminate.
  - exists selections, mapping, report, tr'. split; [exact Hrun|exact Hw].
Defined.

(** ** Cells that hold a number *)

Lemma string_of_uint_numeric (u : Decimal.uint) :
  Str.all is_numeric_char (NilEmpty.string_of_uint u) = true.
Proof. induction u; simpl; done. Qed.

Lemma py_str_int_numeric z : Str.all is_numeric_char (py_str (Int z)) = true.
Proof.
  unfold py_str, NilZero.string_of_int.
  destruct (Z.to_int z) as [u|u]; [|simpl];
    (destruct u; [done|apply string_of_uint_numeric..]).
Qed.

Lemma numeric_lower c : is_numeric_char c = true → Char.lower c = c.
Proof. each_char c. Qed.

Lemma numeric_lower_inv c : is_numeric_char (Char.lower c) = true → is_numeric_char c = true.
Proof. each_char c. Qed.

Lemma numeric_no_mention s kw c kw' :
  Str.all is_numeric_char s = true →
  kw = String c kw' → is_numeric_char c = false →
  ¬ mentions kw s.
Proof.
  intros Hall -> Hc (a & occ & b & -> & Hocc).
  rewrite !all_app_s in Hall. apply andb_true_iff in Hall as [_ Hall].
  apply andb_true_iff in Hall as [Hall _].
  destruct occ as [|d occ]; [done|]. injection Hocc as Hd _.
  simpl in Hall. apply andb_true_iff in Hall as [Hdn _].
  rewrite (numeric_lower _ Hdn) in Hd. congruence.
Qed.

(** A cell that holds an integer yields no identifier and the lowest
    tier, so a pair with such a cell on either side is skipped. *)
Theorem numeric_cell_unresolved z :
  extract_question_id (Int z) = None ∧
  get_priority (Int z) = 4 ∧
  ∀ q, resolve_pair (Int z) q = None ∧ resolve_pair q (Int z) = None.
Proof.
  pose proof (py_str_int_numeric z) as Hnum.
  assert (∀ kw c kw', kw = String c kw' → is_numeric_char c = false →
          ¬ mentions kw (py_str (Int z))) as Hno
    by (intros; by eapply numeric_no_mention).
  assert (extract_question_id (Int z) = None) as Hex.
  { apply extract_none_iff; [done|].
    intros pre g (suf & Ht & label & seps & rest & -> & Hl & _).
    destruct label as [|c label]; [done|].
    apply (Hno (String (Char.lower c) (Str.lower label)) (Char.lower c)
               (Str.lower label) eq_refl).
    - injection Hl as -> _. done.
    - exists pre, (String c label), (seps +:+ g +:+ rest). split; [|done].
      exact Ht. }
  split; [done|]. split.
  - unfold get_priority. cbn [isna].
    assert (existsb (λ p, Str.contains p (Str.lower (py_str (Int z)))) tier1_keywords
            = false) as ->.
    { apply no_keyword. intros kw Hkw. unfold tier1_keywords in Hkw.
      rewrite !elem_of_cons, elem_of_nil in Hkw.
      destruct Hkw as [-> | [-> | [-> | []]]]; by eapply Hno. }
    assert (existsb (λ p, Str.contains p (Str.lower (py_str (Int z)))) tier2_keywords
            = false) as ->.
    { apply no_keyword. intros kw Hkw. unfold tier2_keywords in Hkw.
      rewrite !elem_of_cons, elem_of_nil in Hkw.
      destruct Hkw as [-> | [-> | [-> | []]]]; by eapply Hno. }
    destruct (Str.contains "ncert" _) eqn:Hc; [|done].
    apply contains_lower_mentions in Hc.
    by destruct (Hno "ncert" "n"%char "cert" eq_refl eq_refl).
  - intros q. split; apply resolve_pair_missing; auto.
Qed.

(** ** Deduplicating twice, tables without the expected columns *)

Lemma keep_first_idem {A K} `{EqDecision K} (key : A → K) seen l :
  Frame.keep_first key seen (Frame.keep_first key seen l) =
  Frame.keep_first key seen l.
Proof.
  revert seen. induction l as [|x l IH]; intros seen; [done|]. simpl.
  destruct (decide (key x ∈ seen)) as [Hx|Hx]; [apply IH|]. simpl.
  destruct (decide (key x ∈ seen)); [done|]. by rewrite IH.
Qed.

(** Deduplication is idempotent: applied to its own result, on the same
    columns, it returns that result unchanged. *)
Theorem drop_duplicates_idempotent subset df out :
  Frame.drop_duplicates subset df = Ok out →
  Frame.drop_duplicates subset out = Ok out.
Proof.
  unfold Frame.drop_duplicates. destruct (Frame.empty df) eqn:He.
  - intros [= <-]. by rewrite He.
  - destruct (Frame.missing subset (columns df)) eqn:Hm; [|done].
    intros [= <-]. cbn [columns rows]. rewrite Hm.
    destruct df as [cols rws]. cbn [columns rows] in *.
    destruct cols as [|c cols]; [done|]. destruct rws as [|r rws]; [done|].
    assert (Frame.empty
              {| columns := c :: cols;
                 rows := Frame.keep_first (λ r0, map (Frame.cell_of (c :: cols) r0) subset)
                           [] (r :: rws) |} = false) as -> by done.
    by rewrite keep_first_idem.
Qed.

Lemma drop_duplicates_idempotent_witness :
  Frame.drop_duplicates ["selected_question_id"] sample_selection = Ok sample_selection.
Proof.
  apply (drop_duplicates_idempotent ["selected_question_id"]
    {| columns := selection_columns;
       rows := rows sample_selection ++
               [[Str "cccccccccccccccccccccccc"; Str "eeeeeeeeeeeeeeeeeeeeeeee";
                 Int 2; Int 4; Str "question_2"]] |}).
  reflexivity.
Defined.

(** The two reporting methods need the columns of a selection table: the
    mapping raises [KeyError] naming the selection columns that are absent
    and the report raises it for [selected_priority] after printing its
    three title lines; neither writes a file. *)
Theorem reports_need_columns today df tr :
  (Frame.missing ["selected_question_id"; "selected_priority"] (columns df) ≠ [] →
   create_priority_mapping df tr =
     (Raise (KeyError (Frame.missing ["selected_question_id"; "selected_priority"]
                         (columns df))), tr)) ∧
  ("selected_priority" ∉ columns df →
   validate_and_report today df tr =
     (Raise (KeyError ["selected_priority"]),
      tr ++ [Stdout ValidationTitle; Stdout ValidationRule;
             Stdout DistributionTitle])).
Proof.
  split.
  - intros Hm. unfold create_priority_mapping, Frame.select.
    destruct (Frame.missing _ _) as [|k ks]; done.
  - intros Hsp. unfold validate_and_report, Frame.column.
    rewrite (index_of_None _ _ Hsp).
    unfold mbind, IO_bind, lift, print, emit. by rewrite <- !app_assoc.
Qed.

Lemma reports_need_columns_witness :
  validate_and_report "2025-01-15"
    {| columns := ["question_id"; "priority"]; rows := [[Str "a"; Int 1]] |} [] =
  (Raise (KeyError ["selected_priority"]),
   [] ++ [Stdout ValidationTitle; Stdout ValidationRule; Stdout DistributionTitle]).
Proof.
  apply (proj2 (reports_need_columns "2025-01-15"
    {| columns := ["question_id"; "priority"]; rows := [[Str "a"; Int 1]] |} [])).
  by apply (bool_decide_unpack _).
Defined.

(** ** Selected identifiers across the artifacts and across input orders *)

Lemma kept_selected_cells (results kept : list dict) :
  sublist kept results → Forall is_selection results →
  (λ r, Frame.cell_of selection_columns r "selected_question_id")
    <$> (values <$> kept) = selected_id <$> kept.
Proof.
  intros Hsub H. rewrite <- list_fmap_compose. apply list_fmap_ext.
  intros i d Hd. simpl. apply selection_cell.
  rewrite Forall_forall in H. apply H.
  eapply elem_of_sublist; [by eapply list_elem_of_lookup_2|done].
Qed.

Lemma process_duplicates_selected_cells read_excel read_csv file_path tr out tr' :
  process_duplicates read_excel read_csv file_path tr = (Ok out, tr') →
  ∃ df tr0,
    convert_xlsx_to_csv read_excel read_csv file_path tr = (Ok df, tr0) ∧
    let results := omap (row_selection (columns df)) (rows df) in
    columns out = match results with [] => [] | _ => selection_columns end ∧
    selected_cell out <$> rows out =
      selected_id <$> Frame.keep_first selected_id [] results.
Proof.
  intros (df & tr0 & results & Hconv & Hres & -> & _)%process_duplicates_ok.
  exists df, tr0. split; [done|]. rewrite <- Hres. cbv zeta. split; [done|].
  unfold selected_cell. cbn [rows columns].
  destruct results as [|d0 results']; [done|].
  apply (kept_selected_cells (d0 :: results')); [apply keep_first_sublist|].
  rewrite Hres. apply omap_selection_shape.
Qed.

(** The priority mapping built from the table the resolver returns has
    pairwise distinct question_id cells: they are the selected identifiers
    of that table, in the same order. *)
Theorem mapping_ids_distinct read_excel read_csv file_path tr out tr1 mapping tr2 :
  process_duplicates read_excel read_csv file_path tr = (Ok out, tr1) →
  create_priority_mapping out tr1 = (Ok mapping, tr2) →
  (λ r, Frame.cell_of (columns mapping) r "question_id") <$> rows mapping =
    selected_cell out <$> rows out ∧
  NoDup ((λ r, Frame.cell_of (columns mapping) r "question_id") <$> rows mapping).
Proof.
  intros Hrun Hmap.
  destruct (process_duplicates_selected_cells _ _ _ _ _ _ Hrun)
    as (df & tr0 & _ & Hcols & Hcells). cbv zeta in *.
  destruct (omap (row_selection (columns df)) (rows df)) as [|d0 results'] eqn:Hr.
  { assert (out = empty_frame) as ->.
    { destruct out as [cols rws]. simpl in *. subst cols.
      destruct rws; [done|discriminate]. }
    by rewrite create_priority_mapping_empty in Hmap. }
  rewrite <- Hr in *.
  rewrite create_priority_mapping_run in Hmap
    by (rewrite Hcols; by apply (bool_decide_unpack _)).
  cbv zeta in Hmap. injection Hmap as <- _. cbn [rows columns].
  assert ((λ r, Frame.cell_of ["question_id"; "priority"; "priority_label"] r
                  "question_id")
            <$> ((λ r, [Frame.cell_of (columns out) r "selected_question_id";
                        Frame.cell_of (columns out) r "selected_priority";
                        Frame.map_value priority_labels
                          (Frame.cell_of (columns out) r "selected_priority")])
                 <$> rows out)
          = selected_cell out <$> rows out) as Heq
    by (by rewrite <- list_fmap_compose).
  rewrite Heq. split; [done|]. rewrite Hcells. apply keep_first_NoDup.
Qed.

Lemma mapping_ids_distinct_witness :
  ∃ mapping tr2,
    create_priority_mapping sample_selection
      [Stdout (Loaded 5); ToCsv "final_selection_questions.csv" sample_selection;
       Stdout (SelectionCreated 2)] = (Ok mapping, tr2) ∧
    NoDup ((λ r, Frame.cell_of (columns mapping) r "question_id") <$> rows mapping).
Proof.
  eexists _, _. split; [vm_compute; reflexivity|].
  exact (proj2 (mapping_ids_distinct sample_reader sample_reader "pairs.csv" []
                  sample_selection _ _ _ eq_refl eq_refl)).
Defined.

(** The order of the input pairs does not change which identifiers are
    selected, nor how many rows the result has: two runs on tables with the
    same columns and the same rows in another order return the same
    selected identifiers, up to their order. *)
Theorem selected_ids_order_independent
    read_excel read_csv file_path tr df tr0 out tr1
    read_excel' read_csv' file_path' tr' df' tr0' out' tr1' :
  convert_xlsx_to_csv read_excel read_csv file_path tr = (Ok df, tr0) →
  convert_xlsx_to_csv read_excel' read_csv' file_path' tr' = (Ok df', tr0') →
  columns df = columns df' →
  rows df ≡ₚ rows df' →
  process_duplicates read_excel read_csv file_path tr = (Ok out, tr1) →
  process_duplicates read_excel' read_csv' file_path' tr' = (Ok out', tr1') →
  selected_cell out <$> rows out ≡ₚ selected_cell out' <$> rows out' ∧
  Frame.len out = Frame.len out'.
Proof.
  intros Hc Hc' Hcols Hperm Hrun Hrun'.
  destruct (process_duplicates_selected_cells _ _ _ _ _ _ Hrun)
    as (df1 & tr01 & Hc1 & _ & Hcells).
  destruct (process_duplicates_selected_cells _ _ _ _ _ _ Hrun')
    as (df2 & tr02 & Hc2 & _ & Hcells').
  rewrite Hc in Hc1. injection Hc1 as <- <-.
  rewrite Hc' in Hc2. injection Hc2 as <- <-. cbv zeta in *.
  assert (selected_cell out <$> rows out ≡ₚ selected_cell out' <$> rows out')
    as Hp.
  { rewrite Hcells, Hcells'. apply NoDup_Permutation; [apply keep_first_NoDup..|].
    intros k. rewrite !keep_first_elem_of, <- Hcols. by rewrite Hperm. }
  split; [done|]. unfold Frame.len.
  rewrite <- (length_fmap (selected_cell out)), <- (length_fmap (selected_cell out')).
  by apply Permutation_length.
Qed.

Lemma selected_ids_order_independent_witness :
  ∃ out',
    process_duplicates sample_reader
      (λ _, Ok {| columns := columns sample_pairs;
                  rows := reverse (rows sample_pairs) |}) "reversed.csv" []
      = (Ok out', [Stdout (Loaded 5);
                   ToCsv "final_selection_questions.csv" out';
                   Stdout (SelectionCreated 2)]) ∧
    selected_cell sample_selection <$> rows sample_selection
      ≡ₚ selected_cell out' <$> rows out'.
Proof.
  eexists. split; [vm_compute; reflexivity|].
  refine (proj1 (selected_ids_order_independent
            sample_reader sample_reader "pairs.csv" [] sample_pairs []
            sample_selection _
            sample_reader
            (λ _, Ok {| columns := columns sample_pairs;
                        rows := reverse (rows sample_pairs) |})
            "reversed.csv" [] _ [] _ _
            eq_refl eq_refl eq_refl _ eq_refl eq_refl)).
  apply Permutation_sym, reverse_Permutation.
Defined.
